(** * The template-fill workflow of [src/App.tsx]

    The [App] component keeps seven [useState] cells and changes them from
    five handlers: [onDrop], [uploadTemplate], [generatePDF], the [onChange]
    of each placeholder input and the [onClick] of the download anchor.
    This development embeds the cells as a record, each handler as a
    function on that record, and the two [async] handlers as a pair of
    functions: the part that runs up to the [await fetch(...)] and the part
    that runs once the request has settled.  A small transition system over
    the rendered controls (which of them exist, which are disabled) gives
    the states a user can reach.

    Conventions of the embedding:
    - the [Fields] object is a finite map holding its own properties.  The
      three ways the component touches it are kept apart: an assignment
      [acc[key] = v], which for the name [__proto__] reaches the accessor
      inherited from [Object.prototype] and stores nothing; an object
      literal with a computed key, which always defines an own property; and
      a read [fields[key]], which falls back to [Object.prototype] when
      there is no own property.  [Object.values] is read up to order, which
      is all [Array.prototype.some] observes;
    - a decoded response body has the properties the component reads, at
      the types its state cells declare ([filePath] and [downloadPath] are
      strings, the elements of a [placeholders] array are strings); the
      [placeholders] property itself may hold any value, since the code
      tests it with [Array.isArray];
    - a [set...] call is a write to the cell.  No handler reads a cell after
      writing it, so the order of the writes inside one handler is not
      observable and the state after the handler is the state React
      renders next. *)

From stdpp Require Import gmap strings list fin_maps.

Open Scope string_scope.

(** ** Values *)

(** The browser's [File]: a display name and the bytes. *)
Record File := { name : string; content : list Byte.byte }.

(** [interface Fields { [key: string]: string }] *)
Abbreviation Fields := (gmap string string).

(** What a property of a decoded JSON body may hold.  Arrays carry the
    placeholder names; an object's contents are never inspected. *)
Inductive js_value :=
| JUndefined
| JNull
| JBoolean (b : bool)
| JNumber (n : Z)
| JString (s : string)
| JArray (elems : list string)
| JObject.

Definition Array_isArray (v : js_value) : bool :=
  match v with JArray _ => true | _ => false end.

(** The elements of an array value, once [Array.isArray] has said it is one. *)
Definition elements_of (v : js_value) : list string :=
  match v with JArray elems => elems | _ => [] end.

(** Truthiness of a string: only the empty string is falsy. *)
Definition truthy (s : string) : bool :=
  match s with EmptyString => false | String _ _ => true end.

(** The name of the accessor every ordinary object inherits. *)
Definition proto : string := "__proto__".

(** [acc[key] = value] on an ordinary object whose values are strings.  The
    name becomes (or stays) an own property, except for [__proto__] on an
    object without an own property of that name: the assignment then calls
    the setter inherited from [Object.prototype], which ignores a value that
    is neither an object nor [null]. *)
Definition assign_property (acc : Fields) (key value : string) : Fields :=
  if bool_decide (key = proto) && bool_decide (acc !! key = None)
  then acc
  else <[key := value]> acc.

(** The property names of [Object.prototype]. *)
Definition Object_prototype_names : list string :=
  [ "constructor"; "hasOwnProperty"; "isPrototypeOf"; "propertyIsEnumerable";
    "toLocaleString"; "toString"; "valueOf"; "__proto__";
    "__defineGetter__"; "__defineSetter__"; "__lookupGetter__";
    "__lookupSetter__" ].

(** What [fields[key] || ""] evaluates to: a string, or, when the object
    has no own property of an inherited name, what [Object.prototype] holds
    under that name (a function, or for [__proto__] the prototype itself,
    which an input shows as ["[object Object]"]). *)
Inductive js_read :=
| Text (v : string)
| Inherited (name : string).

(** [Array.prototype.reduce(f, init)] *)
Definition reduce {A B} (f : B → A → B) (init : B) (l : list A) : B :=
  fold_left f l init.

(** [Array.prototype.some] *)
Definition some {A} (p : A → bool) (l : list A) : bool := existsb p l.

(** [Object.values] *)
Definition Object_values (o : Fields) : list string := (map_to_list o).*2.

(** ** The service boundary *)

(** Body of a successful [/upload-template] response. *)
Record UploadData := { data_filePath : string; data_placeholders : js_value }.

(** Body of a successful [/generate-pdf] response. *)
Record GenerateData := { data_downloadPath : string }.

(** How [await fetch(...)] followed by [await response.json()] can go:
    the fetch promise rejects, or a response arrives with its [ok] flag and
    a body that decodes ([Some]) or not ([None]: the [json()] promise
    rejects, or the body is [null] and reading its first property throws). *)
Inductive Fetched (D : Type) :=
| Rejected
| Response (ok : bool) (json : option D).
Arguments Rejected {D}.
Arguments Response {D} ok json.

(** What a handler hands to [fetch]. *)
Inductive Request :=
| UploadRequest (pdf : File)
| GenerateRequest (filePath : string) (data : Fields).

(** ** The component state *)

Record State := {
  file : option File;
  placeholders : list string;
  fields : Fields;
  fileLocation : string;
  downloadLink : string;
  isLoading : bool;
  error : string
}.

(** The initial values passed to [useState]. *)
Definition initial : State :=
  {| file := None; placeholders := []; fields := ∅; fileLocation := "";
     downloadLink := ""; isLoading := false; error := "" |}.

Definition setFile (v : option File) (s : State) : State :=
  {| file := v; placeholders := placeholders s; fields := fields s;
     fileLocation := fileLocation s; downloadLink := downloadLink s;
     isLoading := isLoading s; error := error s |}.

Definition setPlaceholders (v : list string) (s : State) : State :=
  {| file := file s; placeholders := v; fields := fields s;
     fileLocation := fileLocation s; downloadLink := downloadLink s;
     isLoading := isLoading s; error := error s |}.

Definition setFields (v : Fields) (s : State) : State :=
  {| file := file s; placeholders := placeholders s; fields := v;
     fileLocation := fileLocation s; downloadLink := downloadLink s;
     isLoading := isLoading s; error := error s |}.

Definition setFileLocation (v : string) (s : State) : State :=
  {| file := file s; placeholders := placeholders s; fields := fields s;
     fileLocation := v; downloadLink := downloadLink s;
     isLoading := isLoading s; error := error s |}.

Definition setDownloadLink (v : string) (s : State) : State :=
  {| file := file s; placeholders := placeholders s; fields := fields s;
     fileLocation := fileLocation s; downloadLink := v;
     isLoading := isLoading s; error := error s |}.

Definition setIsLoading (v : bool) (s : State) : State :=
  {| file := file s; placeholders := placeholders s; fields := fields s;
     fileLocation := fileLocation s; downloadLink := downloadLink s;
     isLoading := v; error := error s |}.

Definition setError (v : string) (s : State) : State :=
  {| file := file s; placeholders := placeholders s; fields := fields s;
     fileLocation := fileLocation s; downloadLink := downloadLink s;
     isLoading := isLoading s; error := v |}.

(** ** Handlers *)

(** [onDrop]: keeps the first accepted file and clears the error; an empty
    drop changes nothing. *)
Definition onDrop (acceptedFiles : list File) (s : State) : State :=
  match acceptedFiles with
  | [] => s
  | f :: _ => setError "" (setFile (Some f) s)
  end.

(** How a [try] block ends: normally, or by a [throw] (a rejected promise
    included), each with the state reached by then. *)
Inductive Completion :=
| Normal (s : State)
| Thrown (s : State).

(** [uploadTemplate], up to the [await fetch]: the guard on [file], the two
    writes, and the request.  [None] is the early [return]. *)
Definition uploadTemplate_begin (s : State) : option (State * Request) :=
  match file s with
  | None => None
  | Some f => Some (setError "" (setIsLoading true s), UploadRequest f)
  end.

(** The rest of the [try] block of [uploadTemplate]. *)
Definition uploadTemplate_try (r : Fetched UploadData) (s : State) : Completion :=
  match r with
  | Rejected => Thrown s
  | Response ok json =>
    if negb ok then Thrown s
    else match json with
         | None => Thrown s
         | Some data =>
           let s := setFileLocation (data_filePath data) s in
           let placeholdersArray :=
             if Array_isArray (data_placeholders data)
             then elements_of (data_placeholders data)
             else [] in
           let s := setPlaceholders placeholdersArray s in
           let newFields :=
             reduce (λ (acc : Fields) (key : string), assign_property acc key "")
                    ∅ placeholdersArray in
           Normal (setFields newFields s)
         end
  end.

Definition upload_error : string := "Failed to upload template. Please try again.".

(** [try { ... } catch { setError(...) } finally { setIsLoading(false) }] *)
Definition uploadTemplate_resume (r : Fetched UploadData) (s : State) : State :=
  let s := match uploadTemplate_try r s with
           | Normal s' => s'
           | Thrown s' => setError upload_error s'
           end in
  setIsLoading false s.

(** [uploadTemplate] run from click to completion with nothing in between. *)
Definition uploadTemplate (r : Fetched UploadData) (s : State) : State :=
  match uploadTemplate_begin s with
  | None => s
  | Some (s1, _) => uploadTemplate_resume r s1
  end.

(** [generatePDF], up to the [await fetch]. *)
Definition generatePDF_begin (s : State) : option (State * Request) :=
  if negb (truthy (fileLocation s)) then None
  else Some (setError "" (setIsLoading true s),
             GenerateRequest (fileLocation s) (fields s)).

Definition generatePDF_try (r : Fetched GenerateData) (s : State) : Completion :=
  match r with
  | Rejected => Thrown s
  | Response ok json =>
    if negb ok then Thrown s
    else match json with
         | None => Thrown s
         | Some data => Normal (setDownloadLink (data_downloadPath data) s)
         end
  end.

Definition generate_error : string := "Failed to generate PDF. Please try again.".

Definition generatePDF_resume (r : Fetched GenerateData) (s : State) : State :=
  let s := match generatePDF_try r s with
           | Normal s' => s'
           | Thrown s' => setError generate_error s'
           end in
  setIsLoading false s.

Definition generatePDF (r : Fetched GenerateData) (s : State) : State :=
  match generatePDF_begin s with
  | None => s
  | Some (s1, _) => generatePDF_resume r s1
  end.

(** The input's [onChange]: [setFields({ ...fields, [key]: e.target.value })].
    The spread copies the own properties and the computed key defines an own
    property, whatever the name. *)
Definition onChange (key value : string) (s : State) : State :=
  setFields (<[key := value]> (fields s)) s.

(** The anchor's [onClick]: [setDownloadLink("")]. *)
Definition onClick_download (s : State) : State := setDownloadLink "" s.

(** ** The rendered controls *)

(** [value={fields[key] || ""}]: what the input of [key] is given. *)
Definition input_value (key : string) (s : State) : js_read :=
  match fields s !! key with
  | Some v => Text (if truthy v then v else "")
  | None =>
    if bool_decide (key ∈ Object_prototype_names) then Inherited key
    else Text ""
  end.

(** [disabled={!file || isLoading}] *)
Definition upload_disabled (s : State) : bool :=
  negb (bool_decide (is_Some (file s))) || isLoading s.

(** [Object.values(fields).some((v) => !v)] *)
Definition some_value_empty (o : Fields) : bool :=
  some (λ v, negb (truthy v)) (Object_values o).

(** The completeness predicate: no value of the map is falsy. *)
Definition isComplete (o : Fields) : bool := negb (some_value_empty o).

(** [disabled={!fileLocation || isLoading || Object.values(fields).some(...)}] *)
Definition generate_disabled (s : State) : bool :=
  negb (truthy (fileLocation s)) || isLoading s || some_value_empty (fields s).

(** [placeholders.length > 0 && (...)]: guards the inputs, the generate
    button and the download anchor. *)
Definition sections_rendered (s : State) : bool :=
  bool_decide (0 < length (placeholders s)).

(** The generate button exists and is not disabled. *)
Definition generate_callable (s : State) : bool :=
  sections_rendered s && negb (generate_disabled s).

(** [downloadLink && (<a ...>)], inside the guarded section. *)
Definition download_offered (s : State) : bool :=
  sections_rendered s && truthy (downloadLink s).

(** [{error && (<div ...>{error}</div>)}]: the text of the error banner,
    when one is rendered. *)
Definition error_banner (s : State) : option string :=
  if truthy (error s) then Some (error s) else None.

Definition dropzone_prompt : string :=
  "Drag & drop a PDF template here, or click to select one".

(** [{file ? file.name : "Drag & drop ..."}]: the text inside the drop zone. *)
Definition dropzone_label (s : State) : string :=
  match file s with
  | Some f => name f
  | None => dropzone_prompt
  end.

(** ** The workflow as a transition system *)

(** The component together with the requests that have been sent and have
    not settled yet. *)
Record World := { app : State; inflight : list Request }.

Definition start : World := {| app := initial; inflight := [] |}.

Inductive Reply :=
| UploadReply (r : Fetched UploadData)
| GenerateReply (r : Fetched GenerateData).

(** What can happen next: a user action on a rendered control, or the
    [i]-th outstanding request settling with a reply. *)
Inductive Event :=
| Drop (acceptedFiles : list File)
| ClickUpload
| ClickGenerate
| Change (key value : string)
| ClickDownload
| Settle (i : nat) (r : Reply).

Definition sent (w : World) (p : State * Request) : World :=
  {| app := p.1; inflight := inflight w ++ [p.2] |}.

Definition settled (w : World) (i : nat) (s : State) : World :=
  {| app := s; inflight := delete i (inflight w) |}.

(** [None]: the event is not offered in [w] (the control is disabled or not
    rendered, or no such request is outstanding). *)
Definition handle (e : Event) (w : World) : option World :=
  let s := app w in
  match e with
  | Drop acceptedFiles =>
    Some {| app := onDrop acceptedFiles s; inflight := inflight w |}
  | ClickUpload =>
    if upload_disabled s then None
    else sent w <$> uploadTemplate_begin s
  | ClickGenerate =>
    if generate_callable s then sent w <$> generatePDF_begin s
    else None
  | Change key value =>
    if bool_decide (key ∈ placeholders s)
    then Some {| app := onChange key value s; inflight := inflight w |}
    else None
  | ClickDownload =>
    if download_offered s
    then Some {| app := onClick_download s; inflight := inflight w |}
    else None
  | Settle i reply =>
    match inflight w !! i, reply with
    | Some (UploadRequest _), UploadReply r =>
      Some (settled w i (uploadTemplate_resume r s))
    | Some (GenerateRequest _ _), GenerateReply r =>
      Some (settled w i (generatePDF_resume r s))
    | _, _ => None
    end
  end.

(** The same transitions, one rule per handler and outcome. *)
Inductive step (w : World) : Event → World → Prop :=
| step_drop fs :
    step w (Drop fs) {| app := onDrop fs (app w); inflight := inflight w |}
| step_upload f :
    file (app w) = Some f → isLoading (app w) = false →
    step w ClickUpload
         {| app := setError "" (setIsLoading true (app w));
            inflight := inflight w ++ [UploadRequest f] |}
| step_generate :
    generate_callable (app w) = true →
    step w ClickGenerate
         {| app := setError "" (setIsLoading true (app w));
            inflight := inflight w
                        ++ [GenerateRequest (fileLocation (app w)) (fields (app w))] |}
| step_change key value :
    key ∈ placeholders (app w) →
    step w (Change key value)
         {| app := onChange key value (app w); inflight := inflight w |}
| step_download :
    download_offered (app w) = true →
    step w ClickDownload
         {| app := onClick_download (app w); inflight := inflight w |}
| step_upload_settled i pdf r :
    inflight w !! i = Some (UploadRequest pdf) →
    step w (Settle i (UploadReply r))
         (settled w i (uploadTemplate_resume r (app w)))
| step_generate_settled i filePath data r :
    inflight w !! i = Some (GenerateRequest filePath data) →
    step w (Settle i (GenerateReply r))
         (settled w i (generatePDF_resume r (app w))).

(** A reply of the kind the request asked for. *)
Definition answers (q : Request) (reply : Reply) : bool :=
  match q, reply with
  | UploadRequest _, UploadReply _ => true
  | GenerateRequest _ _, GenerateReply _ => true
  | _, _ => false
  end.

(** Runs a script of events; [None] as soon as one is not offered. *)
Fixpoint run (es : list Event) (w : World) : option World :=
  match es with
  | [] => Some w
  | e :: es' => match handle e w with
                | Some w' => run es' w'
                | None => None
                end
  end.

Inductive reachable : World → Prop :=
| reachable_start : reachable start
| reachable_step w e w' :
    reachable w → handle e w = Some w' → reachable w'.

(** ** The invariant of the transition system

    While a request is outstanding the spinner is on and no error is shown;
    there is never more than one outstanding request; every key of
    [fields] is a name in [placeholders]; and every name in [placeholders]
    other than [__proto__] is a key of [fields]. *)
Record consistent (w : World) : Prop := {
  one_inflight : length (inflight w) = if isLoading (app w) then 1 else 0;
  busy_no_error : isLoading (app w) = true → error (app w) = "";
  fields_keys : dom (fields (app w)) ⊆ list_to_set (placeholders (app w));
  fields_names :
    list_to_set (placeholders (app w)) ∖ {[proto]} ⊆ dom (fields (app w))
}.

(** A sequence of field edits applied through [onChange]. *)
Definition edit_all (edits : list (string * string)) (s : State) : State :=
  foldl (λ s e, onChange e.1 e.2 s) s edits.

(** ** Concrete data used in the examples *)

Definition invoice : File := {| name := "invoice.pdf"; content := [] |}.

Definition first_template : UploadData :=
  {| data_filePath := "/tmp/t1"; data_placeholders := JArray ["name"; "amount"] |}.

Definition second_template : UploadData :=
  {| data_filePath := "/tmp/t3"; data_placeholders := JArray ["name"; "date"] |}.

Definition malformed_template : UploadData :=
  {| data_filePath := "/tmp/t2"; data_placeholders := JString "not-a-list" |}.

Definition empty_template : UploadData :=
  {| data_filePath := "/tmp/t4"; data_placeholders := JArray [] |}.

Definition first_document : GenerateData := {| data_downloadPath := "/out/d1.pdf" |}.

(** After picking [invoice.pdf]. *)
Definition file_selected : State := onDrop [invoice] initial.

(** After the first template was uploaded, filled in and generated. *)
Definition document_ready : State :=
  {| file := Some invoice; placeholders := ["name"; "amount"];
     fields := <["amount" := "100"]> (<["name" := "Alice"]> ∅);
     fileLocation := "/tmp/t1"; downloadLink := "/out/d1.pdf";
     isLoading := false; error := "" |}.

(** The generate request of the scenario below is outstanding. *)
Definition generating : World :=
  {| app := {| file := Some invoice; placeholders := ["name"; "amount"];
               fields := <["amount" := "100"]> (<["name" := "Alice"]> ∅);
               fileLocation := "/tmp/t1"; downloadLink := "";
               isLoading := true; error := "" |};
     inflight := [GenerateRequest "/tmp/t1"
                    (<["amount" := "100"]> (<["name" := "Alice"]> ∅))] |}.

(** A template that declares no placeholders has been uploaded. *)
Definition empty_ready : World :=
  {| app := {| file := Some invoice; placeholders := []; fields := ∅;
               fileLocation := "/tmp/t4"; downloadLink := "";
               isLoading := false; error := "" |};
     inflight := [] |}.

(** An upload failed and the button was pressed again. *)
Definition retrying : World :=
  {| app := {| file := Some invoice; placeholders := []; fields := ∅;
               fileLocation := ""; downloadLink := "";
               isLoading := true; error := "" |};
     inflight := [UploadRequest invoice] |}.

(** A template whose only placeholder is named [__proto__]. *)
Definition proto_template : UploadData :=
  {| data_filePath := "/tmp/t6"; data_placeholders := JArray ["__proto__"] |}.

Definition proto_uploaded : list Event :=
  [ Drop [invoice]; ClickUpload;
    Settle 0 (UploadReply (Response true (Some proto_template))) ].

(** The state that upload leaves. *)
Definition proto_ready : World :=
  {| app := {| file := Some invoice; placeholders := ["__proto__"]; fields := ∅;
               fileLocation := "/tmp/t6"; downloadLink := "";
               isLoading := false; error := "" |};
     inflight := [] |}.

(** The first upload was refused by the service. *)
Definition upload_refused : list Event :=
  [ Drop [invoice]; ClickUpload; Settle 0 (UploadReply (Response false None)) ].

(** A template without placeholders was uploaded. *)
Definition empty_uploaded : list Event :=
  [ Drop [invoice]; ClickUpload;
    Settle 0 (UploadReply (Response true (Some empty_template))) ].

(** The scenario that leads there. *)
Definition scenario : list Event :=
  [ Drop [invoice]; ClickUpload;
    Settle 0 (UploadReply (Response true (Some first_template)));
    Change "name" "Alice"; Change "amount" "100"; ClickGenerate;
    Settle 0 (GenerateReply (Response true (Some first_document))) ].

(** * Properties *)

(** ** Auxiliary facts *)

Lemma truthy_true (s : string) : truthy s = true ↔ s ≠ "".
Proof. destruct s; simpl; split; intros; congruence. Qed.

Lemma truthy_false (s : string) : truthy s = false ↔ s = "".
Proof. destruct s; simpl; split; intros; congruence. Qed.

Lemma assign_property_proto (acc : Fields) (v : string) :
  acc !! proto = None → assign_property acc proto v = acc.
Proof.
  intros Hacc. unfold assign_property.
  by rewrite !bool_decide_eq_true_2 by done.
Qed.

Lemma assign_property_other (acc : Fields) (k v : string) :
  k ≠ proto → assign_property acc k v = <[k := v]> acc.
Proof.
  intros Hk. unfold assign_property.
  by rewrite (bool_decide_eq_false_2 (k = proto)) by done.
Qed.

(** The object built by the [reduce] of [uploadTemplate]: one empty entry
    per name other than [__proto__], for which nothing is stored. *)
Lemma reduce_lookup (l : list string) (acc : Fields) (k : string) :
  acc !! proto = None →
  reduce (λ (acc : Fields) (key : string), assign_property acc key "") acc l !! k
  = if decide (k ∈ l ∧ k ≠ proto) then Some "" else acc !! k.
Proof.
  unfold reduce. revert acc.
  induction l as [|x l IH]; intros acc Hacc; cbn [fold_left].
  - rewrite decide_False; [done|]. by intros [?%elem_of_nil _].
  - destruct (decide (x = proto)) as [->|Hx].
    + rewrite assign_property_proto by done.
      rewrite IH by done.
      destruct (decide (k ∈ l ∧ k ≠ proto)) as [[Hl Hk]|Hn].
      * rewrite decide_True; [done|]. split; [|done]. apply elem_of_cons. by right.
      * rewrite decide_False; [done|].
        intros [[->|Hl]%elem_of_cons Hk]; [done|]. by apply Hn.
    + rewrite assign_property_other by done.
      rewrite IH by (by rewrite lookup_insert_ne).
      destruct (decide (k ∈ l ∧ k ≠ proto)) as [[Hl Hk]|Hn].
      * rewrite decide_True; [done|]. split; [|done]. apply elem_of_cons. by right.
      * destruct (decide (k = x)) as [->|Hkx].
        -- rewrite lookup_insert_eq, decide_True; [done|].
           split; [|done]. apply elem_of_cons. by left.
        -- rewrite lookup_insert_ne by done. rewrite decide_False; [done|].
           intros [[->|Hl]%elem_of_cons Hk]; [done|]. by apply Hn.
Qed.

Lemma newFields_lookup (l : list string) (k : string) :
  reduce (λ (acc : Fields) (key : string), assign_property acc key "") ∅ l !! k
  = if decide (k ∈ l ∧ k ≠ proto) then Some "" else None.
Proof. by rewrite reduce_lookup, lookup_empty. Qed.

Lemma newFields_fresh (l : list string) :
  reduce (λ (acc : Fields) (key : string), assign_property acc key "") ∅ l
  = gset_to_gmap "" (list_to_set l ∖ {[proto]}).
Proof.
  apply map_eq; intros k.
  rewrite newFields_lookup, lookup_gset_to_gmap.
  destruct (decide (k ∈ l ∧ k ≠ proto)) as [[Hl Hk]|Hn].
  - rewrite option_guard_True; [done|].
    apply elem_of_difference. split; [by apply elem_of_list_to_set|].
    by rewrite elem_of_singleton.
  - rewrite option_guard_False; [done|].
    rewrite elem_of_difference, elem_of_list_to_set, elem_of_singleton.
    intros [? ?]. by apply Hn.
Qed.

Lemma newFields_dom (l : list string) :
  dom (reduce (λ (acc : Fields) (key : string), assign_property acc key "") ∅ l)
  = list_to_set l ∖ {[proto]}.
Proof. by rewrite newFields_fresh, dom_gset_to_gmap. Qed.

(** [some_value_empty] finds exactly the maps with an empty value. *)
Lemma some_value_empty_spec (o : Fields) :
  some_value_empty o = true ↔ ∃ k, o !! k = Some "".
Proof.
  unfold some_value_empty, some, Object_values.
  rewrite existsb_exists. split.
  - intros (v & Hin & Hv).
    apply negb_true_iff, truthy_false in Hv as ->.
    apply list_elem_of_In, list_elem_of_fmap in Hin as ([k v] & Hv & Hin).
    simpl in Hv. subst v. exists k. by apply elem_of_map_to_list.
  - intros (k & Hk). exists "". split; [|done].
    apply list_elem_of_In, list_elem_of_fmap. exists (k, "").
    split; [done|]. by apply elem_of_map_to_list.
Qed.

Lemma isComplete_spec (o : Fields) :
  isComplete o = true ↔ ∀ k v, o !! k = Some v → v ≠ "".
Proof.
  unfold isComplete. rewrite negb_true_iff, <- not_true_iff_false.
  rewrite some_value_empty_spec. split.
  - intros Hno k v Hk ->. apply Hno. by exists k.
  - intros Hall (k & Hk). by apply (Hall k "").
Qed.

(** What the settling part of each [async] handler leaves alone. *)
Lemma uploadTemplate_resume_isLoading r s :
  isLoading (uploadTemplate_resume r s) = false.
Proof. done. Qed.

Lemma generatePDF_resume_isLoading r s :
  isLoading (generatePDF_resume r s) = false.
Proof. done. Qed.

Lemma uploadTemplate_resume_dom r s :
  dom (fields s) ⊆ list_to_set (placeholders s) →
  list_to_set (placeholders s) ∖ {[proto]} ⊆ dom (fields s) →
  dom (fields (uploadTemplate_resume r s))
    ⊆ list_to_set (placeholders (uploadTemplate_resume r s))
  ∧ list_to_set (placeholders (uploadTemplate_resume r s)) ∖ {[proto]}
    ⊆ dom (fields (uploadTemplate_resume r s)).
Proof.
  intros Hkeys Hnames. unfold uploadTemplate_resume, uploadTemplate_try.
  destruct r as [|[] [data|]]; simpl; try done.
  rewrite newFields_dom. split; [apply subseteq_difference_l|]; reflexivity.
Qed.

Lemma generatePDF_resume_session r s :
  fields (generatePDF_resume r s) = fields s
  ∧ placeholders (generatePDF_resume r s) = placeholders s
  ∧ fileLocation (generatePDF_resume r s) = fileLocation s.
Proof. by destruct r as [|[] [data|]]. Qed.

(** ** The invariant holds in every reachable state *)

Lemma consistent_start : consistent start.
Proof.
  split; simpl; [done | done | |].
  - by rewrite dom_empty_L.
  - intros k [Hk _]%elem_of_difference. by apply elem_of_empty in Hk.
Qed.

Lemma consistent_handle e w w' :
  consistent w → handle e w = Some w' → consistent w'.
Proof.
  intros [Hlen Herr Hkeys Hnames] He.
  destruct e as [fs| | |k v| |i reply]; simpl in He.
  - (* Drop *)
    injection He as <-. destruct fs as [|f fs]; split; simpl; auto.
  - (* ClickUpload *)
    unfold upload_disabled, uploadTemplate_begin in He.
    destruct (isLoading (app w)) eqn:Hbusy.
    { by rewrite orb_true_r in He. }
    destruct (file (app w)) as [f|]; [|by case_match].
    case_match; [done|].
    injection He as <-. apply nil_length_inv in Hlen.
    split; simpl; [by rewrite Hlen | done | done | done].
  - (* ClickGenerate *)
    unfold generate_callable, generate_disabled, generatePDF_begin in He.
    destruct (isLoading (app w)) eqn:Hbusy.
    { by rewrite orb_true_r, andb_false_r in He. }
    destruct (sections_rendered (app w) && _); [|done].
    destruct (negb (truthy (fileLocation (app w)))); [done|].
    injection He as <-. apply nil_length_inv in Hlen.
    split; simpl; [by rewrite Hlen | done | done | done].
  - (* Change *)
    case_bool_decide as Hk; [|done]. injection He as <-.
    split; simpl; [done | done | |].
    + rewrite dom_insert_L. apply union_least; [|done].
      by apply singleton_subseteq_l, elem_of_list_to_set.
    + rewrite dom_insert_L. etrans; [exact Hnames|]. apply union_subseteq_r.
  - (* ClickDownload *)
    destruct (download_offered (app w)); [|done]. injection He as <-.
    split; simpl; done.
  - (* Settle *)
    destruct (inflight w !! i) as [q|] eqn:Hq; [|done].
    assert (Hbusy : isLoading (app w) = true).
    { destruct (isLoading (app w)); [done|].
      apply nil_length_inv in Hlen. by rewrite Hlen in Hq. }
    rewrite Hbusy in Hlen.
    assert (Hrest : length (delete i (inflight w)) = 0).
    { rewrite length_delete by eauto. lia. }
    destruct q as [pdf|fp d], reply as [r|r]; try done; injection He as <-.
    + destruct (uploadTemplate_resume_dom r (app w) Hkeys Hnames).
      split; simpl; done.
    + split; [done | done | |]; unfold settled; cbn [app];
        destruct (generatePDF_resume_session r (app w)) as (-> & -> & _); done.
Qed.

Lemma reachable_consistent w : reachable w → consistent w.
Proof.
  induction 1 as [|w e w' _ IH He].
  - apply consistent_start.
  - by eapply consistent_handle.
Qed.

(** A script that runs shows its end state reachable. *)
Lemma run_reachable es w w' :
  reachable w → run es w = Some w' → reachable w'.
Proof.
  revert w. induction es as [|e es IH]; intros w Hw Hrun; simpl in Hrun.
  - by injection Hrun as <-.
  - destruct (handle e w) as [w1|] eqn:He; [|done].
    apply (IH w1); [by eapply reachable_step | done].
Qed.

(** ** The end-to-end scenario *)

Example scenario_runs :
  run scenario start = Some {| app := document_ready; inflight := [] |}.
Proof. vm_compute. reflexivity. Qed.

Example scenario_template_ready :
  (app <$> run (take 3 scenario) start)
  = Some {| file := Some invoice; placeholders := ["name"; "amount"];
            fields := <["amount" := ""]> (<["name" := ""]> ∅);
            fileLocation := "/tmp/t1"; downloadLink := "";
            isLoading := false; error := "" |}.
Proof. vm_compute. reflexivity. Qed.

Example scenario_download_consumed :
  downloadLink <$> (app <$> run (scenario ++ [ClickDownload]) start) = Some "".
Proof. vm_compute. reflexivity. Qed.

(** ** Upload *)

(** What the settling part of [uploadTemplate] does to the session, from
    whatever state the reply finds the component in. *)
Lemma uploadTemplate_resume_ok data s :
  let s' := uploadTemplate_resume (Response true (Some data)) s in
  fileLocation s' = data_filePath data
  ∧ placeholders s' = (if Array_isArray (data_placeholders data)
                       then elements_of (data_placeholders data) else [])
  ∧ fields s' = gset_to_gmap "" (list_to_set (placeholders s') ∖ {[proto]})
  ∧ file s' = file s ∧ downloadLink s' = downloadLink s
  ∧ error s' = error s ∧ isLoading s' = false.
Proof.
  simpl. repeat split. unfold uploadTemplate_resume; simpl.
  apply newFields_fresh.
Qed.

Lemma uploadTemplate_resume_failed r s :
  (∀ data, r ≠ Response true (Some data)) →
  uploadTemplate_resume r s = setIsLoading false (setError upload_error s).
Proof.
  intros Hr. destruct r as [|[] [data|]]; try done. by destruct (Hr data).
Qed.

Lemma uploadTemplate_selected s f r :
  file s = Some f →
  uploadTemplate r s = uploadTemplate_resume r (setError "" (setIsLoading true s)).
Proof. intros Hf. unfold uploadTemplate, uploadTemplate_begin. by rewrite Hf. Qed.

(** C1, at the input where the code departs from it.  The service declares
    one placeholder, named [__proto__].  The upload succeeds and the list is
    stored as declared, but the [reduce] stores no entry for that name:
    [fields] is the empty object, and its keys are not the declared names. *)
Theorem upload_proto_name_gets_no_entry :
  file file_selected = Some invoice
  ∧ uploadTemplate_try (Response true (Some proto_template))
      (setError "" (setIsLoading true file_selected))
    = Normal (setFields ∅
                (setPlaceholders ["__proto__"]
                   (setFileLocation "/tmp/t6"
                      (setError "" (setIsLoading true file_selected)))))
  ∧ placeholders (uploadTemplate (Response true (Some proto_template)) file_selected)
    = ["__proto__"]
  ∧ fields (uploadTemplate (Response true (Some proto_template)) file_selected) = ∅
  ∧ dom (fields (uploadTemplate (Response true (Some proto_template)) file_selected))
    ≠ list_to_set
        (placeholders (uploadTemplate (Response true (Some proto_template))
                         file_selected))
  ∧ error (uploadTemplate (Response true (Some proto_template)) file_selected) = "".
Proof.
  split; [reflexivity|]. split; [reflexivity|]. split; [reflexivity|].
  split; [reflexivity|]. split; [|reflexivity].
  change (dom (∅ : Fields) ≠ list_to_set ["__proto__"]).
  rewrite dom_empty_L. intros Heq.
  assert (Hin : "__proto__" ∈ (∅ : gset string)).
  { rewrite Heq. apply elem_of_list_to_set, elem_of_cons. by left. }
  by apply elem_of_empty in Hin.
Qed.

(** X21. With a file selected, [uploadTemplate] either succeeds, and then the
    stored placeholder list is the list the response declares, in its order,
    and [fields] is a fresh map with one empty entry for every declared name
    other than [__proto__]; or it fails, the upload error is set, and
    [fileLocation], [placeholders] and [fields] are what they were. *)
Theorem upload_outcome (s : State) (f : File) (r : Fetched UploadData) :
  file s = Some f →
  let s' := uploadTemplate r s in
  (∃ data, r = Response true (Some data)
     ∧ (∀ l, data_placeholders data = JArray l → placeholders s' = l)
     ∧ fields s' = gset_to_gmap "" (list_to_set (placeholders s') ∖ {[proto]})
     ∧ (proto ∉ placeholders s' →
          dom (fields s') = list_to_set (placeholders s'))
     ∧ (∀ k v, fields s' !! k = Some v → v = "")
     ∧ fileLocation s' = data_filePath data
     ∧ error s' = "")
  ∨ ((∀ data, r ≠ Response true (Some data))
     ∧ error s' = upload_error
     ∧ fileLocation s' = fileLocation s
     ∧ placeholders s' = placeholders s
     ∧ fields s' = fields s).
Proof.
  intros Hf s'. subst s'. rewrite (uploadTemplate_selected s f r Hf).
  assert (Hcases : (∃ data, r = Response true (Some data))
                   ∨ ∀ data, r ≠ Response true (Some data)).
  { destruct r as [|[] [data|]]; eauto. }
  destruct Hcases as [[data ->]|Hr].
  - left. exists data.
    destruct (uploadTemplate_resume_ok data (setError "" (setIsLoading true s)))
      as (Hloc & Hpl & Hfl & _ & _ & Herr & _).
    split; [done|]. split.
    { intros l Hl. rewrite Hpl, Hl. done. }
    split; [done|]. split.
    { intros Hno. rewrite Hfl at 1. rewrite dom_gset_to_gmap.
      apply difference_disjoint_L, disjoint_singleton_r.
      by rewrite elem_of_list_to_set. }
    split.
    { intros k v Hk. rewrite Hfl, lookup_gset_to_gmap in Hk.
      apply bind_Some in Hk as (_ & _ & Hv). congruence. }
    done.
  - right. split; [done|]. by rewrite uploadTemplate_resume_failed.
Qed.

Lemma upload_outcome_witness :
  file file_selected = Some invoice
  ∧ placeholders (uploadTemplate (Response true (Some first_template)) file_selected)
    = ["name"; "amount"]
  ∧ dom (fields (uploadTemplate (Response true (Some first_template)) file_selected))
    = list_to_set ["name"; "amount"].
Proof.
  split; [reflexivity|].
  destruct (upload_outcome file_selected invoice
              (Response true (Some first_template)) eq_refl)
    as [(data & Hdata & Hlist & _ & Hdom & _)|(Hno & _)].
  - injection Hdata as <-.
    assert (Hno : proto ∉ placeholders
              (uploadTemplate (Response true (Some first_template)) file_selected)).
    { rewrite (Hlist ["name"; "amount"] eq_refl). intros Hin.
      apply elem_of_cons in Hin as [Hin|Hin]; [discriminate Hin|].
      apply elem_of_cons in Hin as [Hin|Hin]; [discriminate Hin|].
      by apply elem_of_nil in Hin. }
    rewrite (Hdom Hno), (Hlist ["name"; "amount"] eq_refl). split; reflexivity.
  - destruct (Hno first_template eq_refl).
Defined.

(** C7. If the upload succeeds but the [placeholders] property of the body
    is not an array (the string ["not-a-list"], say), the stored placeholder
    list is empty, [fields] is the empty object, the [try] block completes
    without throwing and no error message is set. *)
Theorem upload_malformed_placeholders (s : State) (f : File) (data : UploadData) :
  file s = Some f →
  Array_isArray (data_placeholders data) = false →
  let s' := uploadTemplate (Response true (Some data)) s in
  placeholders s' = [] ∧ fields s' = ∅ ∧ error s' = ""
  ∧ (∀ s1, ∃ s2, uploadTemplate_try (Response true (Some data)) s1 = Normal s2).
Proof.
  intros Hf Harr s'. subst s'. rewrite (uploadTemplate_selected s f _ Hf).
  unfold uploadTemplate_resume, uploadTemplate_try. simpl.
  rewrite Harr. simpl. repeat split. intros s1. eauto.
Qed.

Lemma upload_malformed_placeholders_witness :
  file file_selected = Some invoice
  ∧ Array_isArray (data_placeholders malformed_template) = false
  ∧ placeholders (uploadTemplate (Response true (Some malformed_template)) file_selected) = []
  ∧ fields (uploadTemplate (Response true (Some malformed_template)) file_selected) = ∅
  ∧ error (uploadTemplate (Response true (Some malformed_template)) file_selected) = "".
Proof.
  split; [reflexivity|]. split; [reflexivity|].
  destruct (upload_malformed_placeholders file_selected invoice malformed_template
              eq_refl eq_refl) as (Hp & Hf & He & _).
  auto.
Defined.

(** C5, as the code has it.  A successful upload, from any state with a
    file selected, replaces the server reference, the placeholder list and
    [fields].  Nothing entered before survives: every value of the new
    [fields] is the empty string and every key is a name of the new list;
    every name of the new list other than [__proto__] maps to the empty
    string, whatever was entered under that name before.  The download link
    is not touched. *)
Theorem second_upload_replaces (s : State) (f : File) (data : UploadData) :
  file s = Some f →
  let s' := uploadTemplate (Response true (Some data)) s in
  fileLocation s' = data_filePath data
  ∧ placeholders s' = (if Array_isArray (data_placeholders data)
                       then elements_of (data_placeholders data) else [])
  ∧ (∀ k, k ∈ placeholders s' → k ≠ proto → fields s' !! k = Some "")
  ∧ (∀ k, k ∉ placeholders s' → fields s' !! k = None)
  ∧ (∀ k v, fields s' !! k = Some v → v = "" ∧ k ∈ placeholders s')
  ∧ downloadLink s' = downloadLink s.
Proof.
  intros Hf s'. subst s'. rewrite (uploadTemplate_selected s f _ Hf).
  destruct (uploadTemplate_resume_ok data (setError "" (setIsLoading true s)))
    as (Hloc & Hpl & Hfl & _ & Hdl & _).
  split; [done|]. split; [done|]. split; [|split; [|split; [|done]]].
  - intros k Hk Hne. rewrite Hfl, lookup_gset_to_gmap.
    rewrite option_guard_True; [done|].
    apply elem_of_difference. split; [by apply elem_of_list_to_set|].
    by rewrite elem_of_singleton.
  - intros k Hk. rewrite Hfl, lookup_gset_to_gmap.
    rewrite option_guard_False; [done|].
    rewrite elem_of_difference, elem_of_list_to_set. by intros [? _].
  - intros k v Hk. rewrite Hfl, lookup_gset_to_gmap in Hk.
    destruct (decide (k ∈ list_to_set (C := gset string)
                           (placeholders
                              (uploadTemplate_resume (Response true (Some data))
                                 (setError "" (setIsLoading true s))))
                         ∖ {[proto]})) as [Hin|Hout].
    + rewrite option_guard_True in Hk by done.
      apply elem_of_difference in Hin as [Hin _].
      apply elem_of_list_to_set in Hin. split; [|done].
      cbn in Hk. congruence.
    + by rewrite option_guard_False in Hk by done.
Qed.

Lemma second_upload_replaces_witness :
  file document_ready = Some invoice
  ∧ fields document_ready !! "name" = Some "Alice"
  ∧ fields (uploadTemplate (Response true (Some second_template)) document_ready)
      !! "name" = Some ""
  ∧ fields (uploadTemplate (Response true (Some second_template)) document_ready)
      !! "amount" = None.
Proof.
  split; [reflexivity|]. split; [reflexivity|].
  destruct (second_upload_replaces document_ready invoice second_template eq_refl)
    as (_ & Hpl & Hin & Hout & _).
  split.
  - apply Hin; [|discriminate]. rewrite Hpl. simpl. apply elem_of_cons. by left.
  - apply Hout. rewrite Hpl. simpl.
    intros [?|[?|?%elem_of_nil]%elem_of_cons]%elem_of_cons; done.
Defined.

(** C5, as stated, fails: the link to the document generated from the
    first template is still there, and still offered, after a second
    template was uploaded. *)
Lemma second_upload_keeps_download_link :
  run scenario start = Some {| app := document_ready; inflight := [] |}
  ∧ file document_ready = Some invoice
  ∧ downloadLink (uploadTemplate (Response true (Some second_template)) document_ready)
    ≠ ""
  ∧ download_offered
      (uploadTemplate (Response true (Some second_template)) document_ready) = true.
Proof. repeat split; try (vm_compute; reflexivity). discriminate. Qed.

(** C9, as the code has it.  No handler but [onDrop] writes the [file]
    cell: [uploadTemplate] keeps it whatever the reply, and so do
    [generatePDF], the inputs' [onChange], the anchor's [onClick] and an
    empty drop.  A drop of at least one file stores the first of them, and
    any transition that changes [file] is such a drop. *)
Theorem upload_keeps_file (r : Fetched UploadData) (s : State) :
  file (uploadTemplate r s) = file s
  ∧ file (uploadTemplate_resume r s) = file s
  ∧ (∀ f fs, file (onDrop (f :: fs) s) = Some f)
  ∧ file (onDrop [] s) = file s
  ∧ (∀ r', file (generatePDF r' s) = file s
           ∧ file (generatePDF_resume r' s) = file s)
  ∧ (∀ key value, file (onChange key value s) = file s)
  ∧ file (onClick_download s) = file s
  ∧ (∀ e w w', handle e w = Some w' → file (app w') ≠ file (app w) →
       ∃ f fs, e = Drop (f :: fs) ∧ file (app w') = Some f).
Proof.
  assert (Hres : ∀ r0 s0, file (uploadTemplate_resume r0 s0) = file s0).
  { intros r0 s0. by destruct r0 as [|[] [data|]]. }
  assert (Hgen : ∀ r0 s0, file (generatePDF_resume r0 s0) = file s0).
  { intros r0 s0. by destruct r0 as [|[] [data|]]. }
  split; [|split; [apply Hres|]].
  { unfold uploadTemplate, uploadTemplate_begin.
    destruct (file s) eqn:Hf; [|done]. by rewrite Hres. }
  split; [done|]. split; [done|]. split.
  { intros r'. split; [|apply Hgen]. unfold generatePDF, generatePDF_begin.
    destruct (negb (truthy (fileLocation s))); [done|]. by rewrite Hgen. }
  split; [done|]. split; [done|].
  intros e w w' He Hne. destruct e as [fs| | |k v| |i reply]; cbn [handle] in He.
  - injection He as <-. destruct fs as [|f fs]; [done|]. by exists f, fs.
  - destruct (upload_disabled (app w)); [done|].
    unfold uploadTemplate_begin in He.
    destruct (file (app w)) eqn:Hf; [|done].
    injection He as <-. exfalso. apply Hne. cbn. by rewrite Hf.
  - destruct (generate_callable (app w)); [|done].
    unfold generatePDF_begin in He.
    destruct (negb (truthy (fileLocation (app w)))); [done|].
    injection He as <-. exfalso. by apply Hne.
  - case_bool_decide; [|done]. injection He as <-. exfalso. by apply Hne.
  - destruct (download_offered (app w)); [|done].
    injection He as <-. exfalso. by apply Hne.
  - destruct (inflight w !! i) as [[pdf|fp d]|], reply as [r0|r0]; try done;
      injection He as <-; exfalso; apply Hne; cbn [app settled];
      [apply Hres | apply Hgen].
Qed.

(** C9, as stated, fails: after a successful upload the picked file is
    still held. *)
Lemma upload_success_file_still_selected :
  file file_selected = Some invoice
  ∧ file (uploadTemplate (Response true (Some first_template)) file_selected)
    ≠ None.
Proof. split; [reflexivity | discriminate]. Qed.

(** ** Field edits and the generate control *)

Lemma edit_all_frame edits s :
  fileLocation (edit_all edits s) = fileLocation s
  ∧ isLoading (edit_all edits s) = isLoading s
  ∧ placeholders (edit_all edits s) = placeholders s.
Proof.
  unfold edit_all. revert s.
  induction edits as [|[k v] edits IH]; intros s; [done|]. simpl.
  destruct (IH (onChange k v s)) as (-> & -> & ->). done.
Qed.

(** C3. The predicate that gates the generate button is true exactly when
    every value of [fields] is a non-empty string.  It is computed from the
    current [fields], so this holds after any sequence of edits, and an edit
    that empties a field makes it false again. *)
Theorem isComplete_iff_all_filled (s : State) (edits : list (string * string)) :
  let s' := edit_all edits s in
  (isComplete (fields s') = true ↔ ∀ k v, fields s' !! k = Some v → v ≠ "")
  ∧ generate_disabled s'
    = negb (truthy (fileLocation s)) || isLoading s || negb (isComplete (fields s'))
  ∧ (∀ k, isComplete (fields (onChange k "" s')) = false).
Proof.
  intros s'. split; [apply isComplete_spec|]. split.
  - unfold generate_disabled, isComplete. subst s'.
    destruct (edit_all_frame edits s) as (-> & -> & _).
    by rewrite negb_involutive.
  - intros k. unfold isComplete. apply negb_false_iff, some_value_empty_spec.
    exists k. simpl. apply lookup_insert_eq.
Qed.

(** The scenario of the claim: fill both fields, then empty one. *)
Example isComplete_after_reemptying :
  isComplete (fields (edit_all [("name", "Alice"); ("amount", "100")]
                        (setFields (<["amount" := ""]> (<["name" := ""]> ∅)) initial)))
  = true
  ∧ isComplete (fields (edit_all [("name", "Alice"); ("amount", "100"); ("name", "")]
                        (setFields (<["amount" := ""]> (<["name" := ""]> ∅)) initial)))
    = false.
Proof. split; vm_compute; reflexivity. Qed.

Lemma generate_callable_spec (s : State) :
  generate_callable s = true ↔
    0 < length (placeholders s) ∧ fileLocation s ≠ "" ∧ isLoading s = false
    ∧ isComplete (fields s) = true.
Proof.
  unfold generate_callable, generate_disabled, sections_rendered, isComplete.
  rewrite andb_true_iff, bool_decide_eq_true, negb_true_iff.
  rewrite !orb_false_iff, !negb_false_iff, negb_true_iff, truthy_true.
  tauto.
Qed.

(** C2, as the code has it.  In a reachable state the generate button can
    be pressed exactly when the placeholder list is not empty, a server
    reference is held, no request is outstanding and [fields] is complete;
    and while some entry of [fields] is empty, or the input of some
    placeholder other than [__proto__] shows nothing, the button cannot be
    pressed. *)
Theorem generate_callable_iff (w : World) :
  reachable w →
  let s := app w in
  (generate_callable s = true ↔
     0 < length (placeholders s) ∧ fileLocation s ≠ "" ∧ isLoading s = false
     ∧ isComplete (fields s) = true)
  ∧ (is_Some (handle ClickGenerate w) ↔ generate_callable s = true)
  ∧ (∀ p, fields s !! p = Some "" →
       generate_callable s = false ∧ handle ClickGenerate w = None)
  ∧ (∀ p, p ∈ placeholders s → p ≠ proto → input_value p s = Text "" →
       generate_callable s = false ∧ handle ClickGenerate w = None).
Proof.
  intros Hw. cbv zeta. split; [apply generate_callable_spec|]. split.
  { cbn [handle]. destruct (generate_callable (app w)) eqn:Hc.
    + apply generate_callable_spec in Hc as (_ & Hloc & _).
      unfold generatePDF_begin. apply truthy_true in Hloc. rewrite Hloc. simpl.
      split; eauto.
    + split; [intros [? ?]; done | done]. }
  assert (Hempty : ∀ p, fields (app w) !! p = Some "" →
            generate_callable (app w) = false ∧ handle ClickGenerate w = None).
  { intros p Hp.
    assert (Hc : generate_callable (app w) = false).
    { apply not_true_iff_false. intros (_ & _ & _ & Hall)%generate_callable_spec.
      rewrite isComplete_spec in Hall. by apply (Hall p "" Hp). }
    split; [done|]. cbn [handle]. by rewrite Hc. }
  split; [exact Hempty|].
  intros p Hp Hne Hval. apply (Hempty p).
  destruct (reachable_consistent w Hw) as [_ _ _ Hnames].
  assert (Hin : p ∈ dom (fields (app w))).
  { apply Hnames, elem_of_difference. split; [by apply elem_of_list_to_set|].
    by rewrite elem_of_singleton. }
  apply elem_of_dom in Hin as [v Hv].
  unfold input_value in Hval. rewrite Hv in Hval. rewrite Hv. f_equal.
  destruct (truthy v) eqn:Ht; [congruence|]. by apply truthy_false.
Qed.

Lemma generate_callable_iff_witness :
  reachable {| app := document_ready; inflight := [] |}
  ∧ generate_callable document_ready = true
  ∧ is_Some (handle ClickGenerate {| app := document_ready; inflight := [] |}).
Proof.
  assert (Hw : reachable {| app := document_ready; inflight := [] |}).
  { apply (run_reachable scenario start); [constructor | vm_compute; reflexivity]. }
  split; [exact Hw|].
  destruct (generate_callable_iff _ Hw) as (Hiff & Hclick & _).
  assert (Hc : generate_callable document_ready = true).
  { apply Hiff. repeat split; [simpl; lia | discriminate]. }
  split; [exact Hc | by apply Hclick].
Defined.

(** C2, as stated, fails in both directions of the missing conditions: a
    session exists and [fields] is complete, yet the button cannot be
    pressed, once while the generate request is outstanding and once because
    the template declared no placeholders and the button is not rendered. *)
Lemma generate_not_callable_with_complete_session :
  (run (take 6 scenario) start = Some generating
   ∧ fileLocation (app generating) ≠ ""
   ∧ isComplete (fields (app generating)) = true
   ∧ generate_disabled (app generating) = true
   ∧ generate_callable (app generating) = false)
  ∧ (run empty_uploaded start = Some empty_ready
     ∧ fileLocation (app empty_ready) ≠ ""
     ∧ isComplete (fields (app empty_ready)) = true
     ∧ generate_callable (app empty_ready) = false
     ∧ handle ClickGenerate empty_ready = None).
Proof.
  repeat split; try discriminate; vm_compute; reflexivity.
Qed.

(** C6, at the input where the code departs from it.  After the upload of
    a template whose placeholder is named [__proto__], the keys of [fields]
    are not the names in [placeholders]: the name has no entry.  The input
    for it is rendered all the same, and typing into it adds the key. *)
Theorem proto_name_breaks_domain :
  run proto_uploaded start = Some proto_ready
  ∧ dom (fields (app proto_ready)) ≠ list_to_set (placeholders (app proto_ready))
  ∧ fields (app proto_ready) !! "__proto__" = None
  ∧ handle (Change "__proto__" "x") proto_ready
    = Some {| app := onChange "__proto__" "x" (app proto_ready); inflight := [] |}
  ∧ fields (onChange "__proto__" "x" (app proto_ready)) !! "__proto__" = Some "x"
  ∧ dom (fields (onChange "__proto__" "x" (app proto_ready)))
    ≠ dom (fields (app proto_ready)).
Proof.
  split; [vm_compute; reflexivity|]. split; [|split; [reflexivity|]].
  { change (dom (∅ : Fields) ≠ list_to_set ["__proto__"]).
    rewrite dom_empty_L. intros Heq.
    assert (Hin : "__proto__" ∈ (∅ : gset string)).
    { rewrite Heq. apply elem_of_list_to_set, elem_of_cons. by left. }
    by apply elem_of_empty in Hin. }
  split; [vm_compute; reflexivity|]. split; [vm_compute; reflexivity|].
  change (dom (<["__proto__" := "x"]> (∅ : Fields)) ≠ dom (∅ : Fields)).
  rewrite dom_insert_L, dom_empty_L. intros Heq.
  assert (Hin : "__proto__" ∈ (∅ : gset string)).
  { rewrite <- Heq. apply elem_of_union. left. by apply elem_of_singleton. }
  by apply elem_of_empty in Hin.
Qed.

(** X22. In a reachable state every key of [fields] is a name in
    [placeholders], and every name other than [__proto__] is a key; so the
    keys are exactly the names when none of them is [__proto__].  An edit is
    offered exactly for the names in the list; it runs [onChange], which sets
    that key and, for a name other than [__proto__], leaves the keys as they
    were. *)
Theorem edit_keeps_domain (w : World) (key value : string) :
  reachable w →
  dom (fields (app w)) ⊆ list_to_set (placeholders (app w))
  ∧ list_to_set (placeholders (app w)) ∖ {[proto]} ⊆ dom (fields (app w))
  ∧ (proto ∉ placeholders (app w) →
       dom (fields (app w)) = list_to_set (placeholders (app w)))
  ∧ (is_Some (handle (Change key value) w) ↔ key ∈ placeholders (app w))
  ∧ (∀ w', handle (Change key value) w = Some w' →
       app w' = onChange key value (app w)
       ∧ placeholders (app w') = placeholders (app w)
       ∧ dom (fields (app w')) = {[key]} ∪ dom (fields (app w))
       ∧ (key ≠ proto → dom (fields (app w')) = dom (fields (app w)))
       ∧ fields (app w') !! key = Some value).
Proof.
  intros Hw. destruct (reachable_consistent w Hw) as [_ _ Hkeys Hnames].
  split; [done|]. split; [done|]. split.
  { intros Hno. apply set_eq. intros k. split; [apply Hkeys|].
    intros Hk. apply Hnames, elem_of_difference. split; [done|].
    rewrite elem_of_singleton. intros ->. by apply elem_of_list_to_set in Hk. }
  cbn [handle]. split.
  - case_bool_decide as Hk; split; intros H; try done; try (by destruct H).
  - intros w' He. case_bool_decide as Hk; [|done]. injection He as <-.
    cbn [app]. split; [done|]. split; [done|]. split; [|split].
    + simpl. apply dom_insert_L.
    + intros Hne. simpl. rewrite dom_insert_L. apply subseteq_union_1_L.
      apply singleton_subseteq_l, Hnames, elem_of_difference.
      split; [by apply elem_of_list_to_set | by rewrite elem_of_singleton].
    + simpl. apply lookup_insert_eq.
Qed.

Lemma edit_keeps_domain_witness :
  reachable {| app := document_ready; inflight := [] |}
  ∧ dom (fields document_ready) = list_to_set ["name"; "amount"]
  ∧ is_Some (handle (Change "name" "") {| app := document_ready; inflight := [] |}).
Proof.
  assert (Hw : reachable {| app := document_ready; inflight := [] |}).
  { apply (run_reachable scenario start); [constructor | vm_compute; reflexivity]. }
  split; [exact Hw|].
  destruct (edit_keeps_domain _ "name" "" Hw) as (_ & _ & Hdom & Hoffer & _).
  split.
  - apply Hdom. cbn. intros Hin.
    apply elem_of_cons in Hin as [Hin|Hin]; [discriminate Hin|].
    apply elem_of_cons in Hin as [Hin|Hin]; [discriminate Hin|].
    by apply elem_of_nil in Hin.
  - apply Hoffer. simpl. apply elem_of_cons. by left.
Defined.

(** ** The busy flag and the error message *)

(** C4. Both [uploadTemplate] and [generatePDF], once past their guard,
    set [isLoading] before the request is sent, and whatever the reply is
    (and whatever state it finds) [isLoading] is false when they finish. *)
Theorem busy_flag_bracket (su sg : State) :
  is_Some (file su) → fileLocation sg ≠ "" →
  (∃ s1 q, uploadTemplate_begin su = Some (s1, q) ∧ isLoading s1 = true
           ∧ ∀ r, isLoading (uploadTemplate_resume r s1) = false
                  ∧ isLoading (uploadTemplate r su) = false)
  ∧ (∃ s1 q, generatePDF_begin sg = Some (s1, q) ∧ isLoading s1 = true
             ∧ ∀ r, isLoading (generatePDF_resume r s1) = false
                    ∧ isLoading (generatePDF r sg) = false)
  ∧ (∀ r s, isLoading (uploadTemplate_resume r s) = false)
  ∧ (∀ r s, isLoading (generatePDF_resume r s) = false).
Proof.
  intros [f Hf] Hloc. apply truthy_true in Hloc.
  split; [|split; [|done]].
  - unfold uploadTemplate, uploadTemplate_begin. rewrite Hf.
    eexists _, _. split; [done|]. split; done.
  - unfold generatePDF, generatePDF_begin. rewrite Hloc. simpl.
    eexists _, _. split; [done|]. split; done.
Qed.

Lemma busy_flag_bracket_witness :
  is_Some (file document_ready) ∧ fileLocation document_ready ≠ ""
  ∧ isLoading (uploadTemplate Rejected document_ready) = false
  ∧ isLoading (generatePDF (Response true (Some first_document)) document_ready)
    = false.
Proof.
  assert (Hf : is_Some (file document_ready)) by (by exists invoice).
  assert (Hl : fileLocation document_ready ≠ "") by discriminate.
  split; [exact Hf|]. split; [exact Hl|].
  destruct (busy_flag_bracket document_ready document_ready Hf Hl)
    as ((s1 & q1 & _ & _ & Hu) & (s2 & q2 & _ & _ & Hg) & _).
  split; [apply Hu | apply Hg].
Defined.

(** C10. Both handlers, once past their guard, raise [isLoading] and
    clear the error in the same step, before the request is sent; and in
    every reachable state a raised [isLoading] comes with an empty error
    message. *)
Theorem busy_implies_no_error (w : World) (su sg : State) :
  reachable w → is_Some (file su) → fileLocation sg ≠ "" →
  (isLoading (app w) = true → error (app w) = "")
  ∧ (∃ s1 q, uploadTemplate_begin su = Some (s1, q)
             ∧ isLoading s1 = true ∧ error s1 = "")
  ∧ (∃ s1 q, generatePDF_begin sg = Some (s1, q)
             ∧ isLoading s1 = true ∧ error s1 = "").
Proof.
  intros Hw [f Hf] Hloc. destruct (reachable_consistent w Hw) as [_ Herr _ _].
  split; [done|]. split.
  - unfold uploadTemplate_begin. rewrite Hf. by eexists _, _.
  - unfold generatePDF_begin. apply truthy_true in Hloc. rewrite Hloc.
    by eexists _, _.
Qed.

(** A failed upload leaves its message; pressing the button again raises
    [isLoading] and the message is gone.  The same holds for a press of the
    generate button in a state that shows the message of a failed
    generation. *)
Lemma busy_implies_no_error_witness :
  error <$> (app <$> run upload_refused start) = Some upload_error
  ∧ reachable retrying
  ∧ is_Some (file (setError upload_error file_selected))
  ∧ fileLocation (setError generate_error document_ready) ≠ ""
  ∧ isLoading (app retrying) = true
  ∧ error (app retrying) = ""
  ∧ (∃ s1 q, uploadTemplate_begin (setError upload_error file_selected)
             = Some (s1, q) ∧ isLoading s1 = true ∧ error s1 = "")
  ∧ (∃ s1 q, generatePDF_begin (setError generate_error document_ready)
             = Some (s1, q) ∧ isLoading s1 = true ∧ error s1 = "").
Proof.
  split; [vm_compute; reflexivity|].
  assert (Hw : reachable retrying).
  { apply (run_reachable (upload_refused ++ [ClickUpload]) start);
      [constructor | vm_compute; reflexivity]. }
  assert (Hf : is_Some (file (setError upload_error file_selected))).
  { by exists invoice. }
  assert (Hl : fileLocation (setError generate_error document_ready) ≠ "").
  { discriminate. }
  split; [exact Hw|]. split; [exact Hf|]. split; [exact Hl|].
  split; [reflexivity|].
  destruct (busy_implies_no_error retrying _ _ Hw Hf Hl) as (Herr & Hup & Hgen).
  split; [apply Herr; reflexivity|]. split; [exact Hup | exact Hgen].
Defined.

(** ** Generation and download *)

(** C8. When [generatePDF] succeeds the download link is the
    [downloadPath] of the response, whatever link was held before; the
    anchor's [onClick] sets it back to the empty string, from any state. *)
Theorem generate_then_consume (s : State) (data : GenerateData) :
  fileLocation s ≠ "" →
  downloadLink (generatePDF (Response true (Some data)) s) = data_downloadPath data
  ∧ (∀ s', downloadLink (generatePDF_resume (Response true (Some data)) s')
           = data_downloadPath data)
  ∧ (∀ s', downloadLink (onClick_download s') = "")
  ∧ downloadLink (onClick_download (generatePDF (Response true (Some data)) s)) = ""
  ∧ (∀ w w', handle ClickDownload w = Some w' → downloadLink (app w') = "").
Proof.
  intros Hloc. apply truthy_true in Hloc.
  split; [|split; [done|split; [done|split; [done|]]]].
  - unfold generatePDF, generatePDF_begin. by rewrite Hloc.
  - intros w w' He. cbn [handle] in He.
    destruct (download_offered (app w)); [|done]. by injection He as <-.
Qed.

Lemma generate_then_consume_witness :
  fileLocation document_ready ≠ ""
  ∧ downloadLink (generatePDF (Response true (Some {| data_downloadPath := "/out/d2.pdf" |}))
                    document_ready) = "/out/d2.pdf"
  ∧ downloadLink (onClick_download document_ready) = "".
Proof.
  assert (Hl : fileLocation document_ready ≠ "") by discriminate.
  split; [exact Hl|].
  destruct (generate_then_consume document_ready
              {| data_downloadPath := "/out/d2.pdf" |} Hl) as (Hgen & _ & Hclr & _).
  split; [exact Hgen | apply Hclr].
Defined.

(** * Further properties of the handlers *)

(** ** Guards and outcomes *)

(** X1. The early [return]s.  Without a selected file [uploadTemplate] sends
    nothing and leaves the state as it is, whatever reply one imagines; the
    same holds for [generatePDF] without a server reference.  Each guard
    fires in no other case. *)
Theorem handlers_guarded (su sg : State) :
  file su = None → fileLocation sg = "" →
  (uploadTemplate_begin su = None ∧ ∀ r, uploadTemplate r su = su)
  ∧ (generatePDF_begin sg = None ∧ ∀ r, generatePDF r sg = sg)
  ∧ (∀ s, uploadTemplate_begin s = None ↔ file s = None)
  ∧ (∀ s, generatePDF_begin s = None ↔ fileLocation s = "").
Proof.
  intros Hf Hloc. split; [|split; [|split]].
  - unfold uploadTemplate, uploadTemplate_begin. by rewrite Hf.
  - unfold generatePDF, generatePDF_begin. by rewrite Hloc.
  - intros s. unfold uploadTemplate_begin. by destruct (file s).
  - intros s. unfold generatePDF_begin. rewrite <- truthy_false.
    by destruct (truthy (fileLocation s)).
Qed.

Lemma handlers_guarded_witness :
  file initial = None ∧ fileLocation initial = ""
  ∧ uploadTemplate (Response true (Some first_template)) initial = initial
  ∧ generatePDF (Response true (Some first_document)) initial = initial.
Proof.
  split; [reflexivity|]. split; [reflexivity|].
  destruct (handlers_guarded initial initial eq_refl eq_refl)
    as ((_ & Hu) & (_ & Hg) & _).
  split; [apply Hu | apply Hg].
Defined.

(** X2. With a server reference held, [generatePDF] has two outcomes.  On
    an ok response whose body decodes, the link is the response's
    [downloadPath] and the error is empty; on anything else the link is the
    one held before and the generation message is set.  Either way the
    file, the session and [fields] are untouched and [isLoading] ends false. *)
Theorem generate_outcome (s : State) (r : Fetched GenerateData) :
  fileLocation s ≠ "" →
  let s' := generatePDF r s in
  (file s' = file s ∧ placeholders s' = placeholders s ∧ fields s' = fields s
   ∧ fileLocation s' = fileLocation s ∧ isLoading s' = false)
  ∧ ((∃ data, r = Response true (Some data)
        ∧ downloadLink s' = data_downloadPath data ∧ error s' = "")
     ∨ ((∀ data, r ≠ Response true (Some data))
        ∧ downloadLink s' = downloadLink s ∧ error s' = generate_error)).
Proof.
  intros Hloc. apply truthy_true in Hloc. cbv zeta.
  unfold generatePDF, generatePDF_begin. rewrite Hloc. cbn [negb].
  destruct r as [|[] [data|]]; (split; [done|]);
    try (right; split; [intros; discriminate | done]).
  left. by exists data.
Qed.

Lemma generate_outcome_witness :
  fileLocation document_ready ≠ ""
  ∧ downloadLink (generatePDF (Response false None) document_ready) = "/out/d1.pdf"
  ∧ error (generatePDF (Response false None) document_ready) = generate_error.
Proof.
  assert (Hl : fileLocation document_ready ≠ "") by discriminate.
  split; [exact Hl|].
  destruct (generate_outcome document_ready (Response false None) Hl)
    as (_ & [(data & Hr & _)|(_ & Hlink & Herr)]).
  - discriminate Hr.
  - split; [exact Hlink | exact Herr].
Defined.

(** X3. The upload button can be pressed exactly when a file is selected
    and nothing is loading; and whenever it can be pressed, the handler's own
    guard passes: the request carries the selected file, [isLoading] is
    raised and the error is cleared. *)
Theorem upload_callable_iff (w : World) :
  (is_Some (handle ClickUpload w)
   ↔ is_Some (file (app w)) ∧ isLoading (app w) = false)
  ∧ (∀ w', handle ClickUpload w = Some w' →
       ∃ f, file (app w) = Some f
            ∧ inflight w' = (inflight w ++ [UploadRequest f])%list
            ∧ app w' = setError "" (setIsLoading true (app w))).
Proof.
  cbn [handle]. unfold upload_disabled, uploadTemplate_begin.
  destruct (file (app w)) as [f|] eqn:Hf.
  - rewrite bool_decide_eq_true_2 by eauto. cbn [negb orb].
    destruct (isLoading (app w)); cbn [fmap option_fmap option_map].
    + split; [|done]. split; [intros [? ?]; done | intros [_ ?]; done].
    + split; [split; eauto|]. intros w' [= <-]. by exists f.
  - rewrite bool_decide_eq_false_2 by (by intros [? ?]). cbn [negb orb].
    split; [|done]. split; [intros [? ?]; done | intros [[? ?] _]; done].
Qed.

(** ** Requests *)

Lemma reachable_busy_inflight w :
  reachable w → isLoading (app w) = true → ∃ q, inflight w = [q].
Proof.
  intros Hw Hbusy. destruct (reachable_consistent w Hw) as [Hlen _ _].
  rewrite Hbusy in Hlen. destruct (inflight w) as [|q [|q' rest]]; try done.
  by exists q.
Qed.

Lemma reachable_idle_inflight w :
  reachable w → isLoading (app w) = false → inflight w = [].
Proof.
  intros Hw Hidle. destruct (reachable_consistent w Hw) as [Hlen _ _].
  rewrite Hidle in Hlen. by apply nil_length_inv.
Qed.

Lemma busy_clicks_refused w :
  isLoading (app w) = true →
  handle ClickUpload w = None ∧ handle ClickGenerate w = None.
Proof.
  intros Hbusy. cbn [handle].
  unfold upload_disabled, generate_callable, generate_disabled.
  rewrite Hbusy, !orb_true_r, andb_false_r. done.
Qed.

Lemma settle_beyond_first w i reply :
  reachable w → (1 ≤ i)%nat → handle (Settle i reply) w = None.
Proof.
  intros Hw Hi. destruct (reachable_consistent w Hw) as [Hlen _ _].
  cbn [handle]. rewrite (lookup_ge_None_2 (inflight w) i); [done|].
  destruct (isLoading (app w)); lia.
Qed.

Lemma upload_offered w :
  is_Some (file (app w)) → isLoading (app w) = false →
  is_Some (handle ClickUpload w).
Proof.
  intros [f Hf] Hidle. cbn [handle]. unfold upload_disabled, uploadTemplate_begin.
  rewrite Hf, Hidle. rewrite bool_decide_eq_true_2 by eauto. cbn. eauto.
Qed.

(** X4. There is never more than one request outstanding, the spinner is
    on exactly while there is one, and while it is on neither button can be
    pressed. *)
Theorem single_flight (w : World) :
  reachable w →
  (length (inflight w) ≤ 1)%nat
  ∧ (isLoading (app w) = true ↔ inflight w ≠ [])
  ∧ (isLoading (app w) = true →
       handle ClickUpload w = None ∧ handle ClickGenerate w = None)
  ∧ (∀ i reply, (1 ≤ i)%nat → handle (Settle i reply) w = None).
Proof.
  intros Hw. destruct (reachable_consistent w Hw) as [Hlen _ _].
  split; [destruct (isLoading (app w)); lia|]. split; [|split].
  - destruct (isLoading (app w)); split; try done.
    + intros _ Hnil. by rewrite Hnil in Hlen.
    + intros Hne. by apply nil_length_inv in Hlen.
  - intros Hbusy. cbn [handle].
    unfold upload_disabled, generate_callable, generate_disabled.
    rewrite Hbusy, !orb_true_r, andb_false_r. done.
  - intros i reply Hi. cbn [handle].
    rewrite (lookup_ge_None_2 (inflight w) i); [done|].
    destruct (isLoading (app w)); lia.
Qed.

Lemma single_flight_witness :
  reachable generating
  ∧ isLoading (app generating) = true
  ∧ handle ClickUpload generating = None
  ∧ handle ClickGenerate generating = None.
Proof.
  assert (Hw : reachable generating).
  { apply (run_reachable (take 6 scenario) start);
      [constructor | vm_compute; reflexivity]. }
  split; [exact Hw|]. split; [reflexivity|].
  destruct (single_flight generating Hw) as (_ & _ & Hoff & _).
  apply Hoff. reflexivity.
Defined.

(** X5. While a request is outstanding, a drop, an edit or a click on the
    download anchor leaves that request as it was sent, the spinner on and
    the error empty; the only event that ends the wait is the settling of
    that request. *)
Theorem busy_phase_step (w w' : World) (e : Event) :
  reachable w → isLoading (app w) = true → handle e w = Some w' →
  (inflight w' = inflight w ∧ isLoading (app w') = true ∧ error (app w') = "")
  ∨ (∃ reply, e = Settle 0 reply ∧ inflight w' = []
              ∧ isLoading (app w') = false).
Proof.
  intros Hw Hbusy He.
  destruct (reachable_busy_inflight w Hw Hbusy) as [q Hq].
  destruct (reachable_consistent w Hw) as [_ Herr _].
  destruct (busy_clicks_refused w Hbusy) as [Hup Hgen].
  pose proof (λ i reply, settle_beyond_first w i reply Hw) as Hidx.
  destruct e as [fs| | |k v| |i reply].
  - left. cbn [handle] in He. injection He as <-. cbn [app inflight].
    destruct fs; cbn; auto.
  - congruence.
  - congruence.
  - left. cbn [handle] in He. case_bool_decide; [|done].
    injection He as <-. cbn. auto.
  - left. cbn [handle] in He. destruct (download_offered (app w)); [|done].
    injection He as <-. cbn. auto.
  - right. destruct i as [|i]; [|rewrite Hidx in He by lia; done].
    exists reply. split; [done|]. cbn [handle] in He. rewrite Hq in He.
    cbn in He. destruct q, reply; try done; injection He as <-;
      cbn [app inflight settled]; by rewrite ?Hq.
Qed.

Lemma busy_phase_step_witness :
  reachable generating ∧ isLoading (app generating) = true
  ∧ (∃ w', handle (Change "name" "Bob") generating = Some w'
           ∧ inflight w' = inflight generating ∧ isLoading (app w') = true).
Proof.
  assert (Hw : reachable generating).
  { apply (run_reachable (take 6 scenario) start);
      [constructor | vm_compute; reflexivity]. }
  split; [exact Hw|]. split; [reflexivity|].
  eexists. split; [vm_compute; reflexivity|].
  destruct (busy_phase_step generating _ (Change "name" "Bob") Hw eq_refl eq_refl)
    as [(Hq & Hb & _)|(reply & Hr & _)]; [by split | discriminate Hr].
Defined.

(** X6. An outstanding request can always settle: in a reachable state
    with the spinner on there is exactly one request, every reply of its
    kind is accepted, and accepting it turns the spinner off and leaves no
    request behind. *)
Theorem busy_always_settles (w : World) :
  reachable w → isLoading (app w) = true →
  ∃ q, inflight w = [q]
       ∧ ∀ reply, answers q reply = true →
           ∃ w', handle (Settle 0 reply) w = Some w'
                 ∧ isLoading (app w') = false ∧ inflight w' = [].
Proof.
  intros Hw Hbusy. destruct (reachable_busy_inflight w Hw Hbusy) as [q Hq].
  exists q. split; [done|]. intros reply Hans. cbn [handle]. rewrite Hq.
  destruct q, reply; try done; eexists; (split; [reflexivity|]);
    unfold settled; cbn [app inflight]; by rewrite Hq.
Qed.

Lemma busy_always_settles_witness :
  reachable retrying ∧ isLoading (app retrying) = true
  ∧ (∃ w', handle (Settle 0 (UploadReply Rejected)) retrying = Some w'
           ∧ isLoading (app w') = false ∧ inflight w' = []).
Proof.
  assert (Hw : reachable retrying).
  { apply (run_reachable (upload_refused ++ [ClickUpload]) start);
      [constructor | vm_compute; reflexivity]. }
  split; [exact Hw|]. split; [reflexivity|].
  destruct (busy_always_settles retrying Hw eq_refl) as (q & Hq & Hsettle).
  injection Hq as <-. apply Hsettle. reflexivity.
Defined.

(** X7. What a press of the generate button sends from a reachable state:
    the held server reference, which is not empty, and the [fields] object.
    Every key of that object is a placeholder name, every value is
    non-empty, and every placeholder name other than [__proto__] has a
    value.  It is the only request outstanding afterwards. *)
Theorem generate_request_payload (w w' : World) :
  reachable w → handle ClickGenerate w = Some w' →
  inflight w' = [GenerateRequest (fileLocation (app w)) (fields (app w))]
  ∧ fileLocation (app w) ≠ ""
  ∧ dom (fields (app w)) ⊆ list_to_set (placeholders (app w))
  ∧ (∀ k v, fields (app w) !! k = Some v → v ≠ "")
  ∧ (∀ p, p ∈ placeholders (app w) → p ≠ proto →
       ∃ v, fields (app w) !! p = Some v ∧ v ≠ "")
  ∧ app w' = setError "" (setIsLoading true (app w)).
Proof.
  intros Hw He. destruct (reachable_consistent w Hw) as [_ _ Hkeys Hnames].
  cbn [handle] in He. destruct (generate_callable (app w)) eqn:Hc; [|done].
  apply generate_callable_spec in Hc as (_ & Hloc & Hidle & Hall).
  unfold generatePDF_begin in He. pose proof Hloc as Ht.
  apply truthy_true in Ht. rewrite Ht in He.
  cbn [negb fmap option_fmap option_map] in He. injection He as <-.
  unfold sent. cbn [app inflight fst snd].
  rewrite (reachable_idle_inflight w Hw Hidle).
  rewrite isComplete_spec in Hall.
  split; [done|]. split; [done|]. split; [done|]. split; [done|].
  split; [|done].
  intros p Hp Hne.
  assert (Hin : p ∈ dom (fields (app w))).
  { apply Hnames, elem_of_difference. split; [by apply elem_of_list_to_set|].
    by rewrite elem_of_singleton. }
  apply elem_of_dom in Hin as [v Hv]. exists v. split; [done|].
  by apply (Hall p v).
Qed.

Lemma generate_request_payload_witness :
  reachable {| app := document_ready; inflight := [] |}
  ∧ handle ClickGenerate {| app := document_ready; inflight := [] |}
    = Some {| app := setError "" (setIsLoading true document_ready);
              inflight := [GenerateRequest "/tmp/t1" (fields document_ready)] |}
  ∧ fileLocation document_ready ≠ "".
Proof.
  assert (Hw : reachable {| app := document_ready; inflight := [] |}).
  { apply (run_reachable scenario start); [constructor | vm_compute; reflexivity]. }
  split; [exact Hw|].
  assert (He : handle ClickGenerate {| app := document_ready; inflight := [] |}
    = Some {| app := setError "" (setIsLoading true document_ready);
              inflight := [GenerateRequest "/tmp/t1" (fields document_ready)] |}).
  { vm_compute. reflexivity. }
  split; [exact He|].
  destruct (generate_request_payload _ _ Hw He) as (_ & Hloc & _). exact Hloc.
Defined.

(** ** The transitions, rule by rule *)

Lemma handle_step_1 e w w' : handle e w = Some w' → step w e w'.
Proof.
  intros He. destruct e as [fs| | |k v| |i reply]; cbn [handle] in He.
  - injection He as <-. constructor.
  - unfold upload_disabled, uploadTemplate_begin in He.
    destruct (file (app w)) as [f|] eqn:Hf.
    + rewrite bool_decide_eq_true_2 in He by eauto. cbn [negb orb] in He.
      destruct (isLoading (app w)) eqn:Hbusy; [done|].
      injection He as <-. by apply step_upload.
    + by destruct (negb _ || _).
  - destruct (generate_callable (app w)) eqn:Hc; [|done].
    pose proof Hc as (_ & Hloc%truthy_true & _)%generate_callable_spec.
    unfold generatePDF_begin in He. rewrite Hloc in He.
    injection He as <-. by apply step_generate.
  - case_bool_decide; [|done]. injection He as <-. by constructor.
  - destruct (download_offered (app w)) eqn:Hd; [|done].
    injection He as <-. by constructor.
  - destruct (inflight w !! i) as [[pdf|fp d]|] eqn:Hq, reply as [r|r];
      try done; injection He as <-; econstructor; done.
Qed.

Lemma handle_step_2 e w w' : step w e w' → handle e w = Some w'.
Proof.
  intros Hs. destruct Hs as [fs|f Hf Hidle|Hc|k v Hk|Hd|i pdf r Hq|i fp d r Hq];
    cbn [handle].
  - done.
  - unfold upload_disabled, uploadTemplate_begin. rewrite Hf, Hidle.
    by rewrite bool_decide_eq_true_2 by eauto.
  - rewrite Hc. apply generate_callable_spec in Hc as (_ & Hloc%truthy_true & _).
    unfold generatePDF_begin. by rewrite Hloc.
  - by rewrite bool_decide_eq_true_2.
  - by rewrite Hd.
  - by rewrite Hq.
  - by rewrite Hq.
Qed.

(** The executable [handle] and the rules of [step] describe the same
    transitions: an event is offered with result [w'] exactly when one of
    the seven rules derives it. *)
Theorem handle_iff_step (e : Event) (w w' : World) :
  handle e w = Some w' ↔ step w e w'.
Proof. split; [apply handle_step_1 | apply handle_step_2]. Qed.

(** X8. Only a successfully settled upload changes the session.  Any
    other transition keeps the server reference and the placeholder list,
    and changes [fields] at most by the one entry an edit writes; a
    successful upload installs the three together: the response's
    reference, its list of names, and one empty entry for every name other
    than [__proto__]. *)
Theorem session_changes_only_on_upload_success (e : Event) (w w' : World) :
  handle e w = Some w' →
  (fileLocation (app w') = fileLocation (app w)
   ∧ placeholders (app w') = placeholders (app w)
   ∧ (fields (app w') = fields (app w)
      ∨ ∃ k v, e = Change k v ∧ k ∈ placeholders (app w)
               ∧ fields (app w') = <[k := v]> (fields (app w))))
  ∨ (∃ i data, e = Settle i (UploadReply (Response true (Some data)))
               ∧ fileLocation (app w') = data_filePath data
               ∧ placeholders (app w')
                 = (if Array_isArray (data_placeholders data)
                    then elements_of (data_placeholders data) else [])
               ∧ fields (app w')
                 = gset_to_gmap ""
                     (list_to_set (placeholders (app w')) ∖ {[proto]})).
Proof.
  intros Hs%handle_step_1.
  destruct Hs as [fs|f Hf Hidle|Hc|k v Hk|Hd|i pdf r Hq|i fp d r Hq];
    cbn [app settled].
  - left. destruct fs; auto.
  - left. auto.
  - left. auto.
  - left. split; [done|]. split; [done|]. right. by exists k, v.
  - left. auto.
  - destruct r as [|[] [data|]]; try (left; by auto).
    right. exists i, data. split; [done|].
    destruct (uploadTemplate_resume_ok data (app w)) as (? & ? & ? & _). done.
  - left. destruct (generatePDF_resume_session r (app w)) as (? & ? & ?). auto.
Qed.

Lemma session_changes_only_on_upload_success_witness :
  handle (Settle 0 (GenerateReply Rejected)) generating
  = Some {| app := generatePDF_resume Rejected (app generating); inflight := [] |}
  ∧ fileLocation (generatePDF_resume Rejected (app generating)) = "/tmp/t1"
  ∧ placeholders (generatePDF_resume Rejected (app generating)) = ["name"; "amount"].
Proof.
  assert (He : handle (Settle 0 (GenerateReply Rejected)) generating
    = Some {| app := generatePDF_resume Rejected (app generating); inflight := [] |}).
  { reflexivity. }
  split; [exact He|].
  destruct (session_changes_only_on_upload_success _ _ _ He)
    as [(Hloc & Hpl & _)|(i & data & Hev & _)]; [|discriminate Hev].
  split; [exact Hloc | exact Hpl].
Defined.

(** X9. The download link changes in two ways only: a click on the anchor
    empties it, and a successfully settled generation sets it to the
    response's [downloadPath].  Drops, uploads, edits and failed generations
    keep it. *)
Theorem download_link_changes (e : Event) (w w' : World) :
  handle e w = Some w' →
  downloadLink (app w') = downloadLink (app w)
  ∨ (e = ClickDownload ∧ downloadLink (app w) ≠ "" ∧ downloadLink (app w') = "")
  ∨ (∃ i data, e = Settle i (GenerateReply (Response true (Some data)))
               ∧ downloadLink (app w') = data_downloadPath data).
Proof.
  intros Hs%handle_step_1.
  destruct Hs as [fs|f Hf Hidle|Hc|k v Hk|Hd|i pdf r Hq|i fp d r Hq];
    cbn [app settled].
  - left. by destruct fs.
  - by left.
  - by left.
  - by left.
  - right; left. split; [done|]. split; [|done].
    unfold download_offered in Hd. apply andb_true_iff in Hd as [_ Hd].
    by apply truthy_true.
  - left. by destruct r as [|[] [data|]].
  - destruct r as [|[] [data|]]; try by left.
    right; right. by exists i, data.
Qed.

Lemma download_link_changes_witness :
  handle ClickDownload {| app := document_ready; inflight := [] |}
  = Some {| app := onClick_download document_ready; inflight := [] |}
  ∧ downloadLink document_ready ≠ ""
  ∧ downloadLink (onClick_download document_ready) = "".
Proof.
  assert (He : handle ClickDownload {| app := document_ready; inflight := [] |}
    = Some {| app := onClick_download document_ready; inflight := [] |}).
  { reflexivity. }
  split; [exact He|].
  destruct (download_link_changes _ _ _ He)
    as [Hsame|[(_ & Hne & Hclr)|(i & data & Hev & _)]].
  - discriminate Hsame.
  - split; [exact Hne | exact Hclr].
  - discriminate Hev.
Defined.

(** X10. The selected file is only ever replaced, never dropped: a
    transition keeps the [file] cell unless it is a drop of at least one
    file, which stores the first of them and clears the error.  A file once
    selected stays selected. *)
Theorem file_changes_only_on_drop (e : Event) (w w' : World) :
  handle e w = Some w' →
  (file (app w') = file (app w)
   ∨ ∃ f rest, e = Drop (f :: rest) ∧ file (app w') = Some f
               ∧ error (app w') = "" ∧ dropzone_label (app w') = name f)
  ∧ (is_Some (file (app w)) → is_Some (file (app w'))).
Proof.
  intros Hs%handle_step_1.
  assert (Hup : ∀ r s, file (uploadTemplate_resume r s) = file s).
  { intros r s. by destruct r as [|[] [data|]]. }
  assert (Hgen : ∀ r s, file (generatePDF_resume r s) = file s).
  { intros r s. by destruct r as [|[] [data|]]. }
  destruct Hs as [fs|f Hf Hidle|Hc|k v Hk|Hd|i pdf r Hq|i fp d r Hq];
    cbn [app settled]; rewrite ?Hup, ?Hgen; try (split; [by left | done]).
  destruct fs as [|f rest]; [split; [by left | done]|].
  split; [right; by exists f, rest | cbn; eauto].
Qed.

Lemma file_changes_only_on_drop_witness :
  handle (Drop [invoice]) start
  = Some {| app := file_selected; inflight := [] |}
  ∧ file file_selected = Some invoice
  ∧ dropzone_label file_selected = "invoice.pdf".
Proof.
  assert (He : handle (Drop [invoice]) start
    = Some {| app := file_selected; inflight := [] |}) by reflexivity.
  split; [exact He|].
  destruct (file_changes_only_on_drop _ _ _ He) as ([Hsame|(f & rest & Hev & Hf & _ & Hl)] & _).
  - discriminate Hsame.
  - injection Hev as <- _. split; [exact Hf | exact Hl].
Defined.

(** ** The error banner *)

Lemma step_error e w w' :
  step w e w' →
  error (app w') = error (app w) ∨ error (app w') = ""
  ∨ error (app w') = upload_error ∨ error (app w') = generate_error.
Proof.
  intros Hs.
  destruct Hs as [fs|f Hf Hidle|Hc|k v Hk|Hd|i pdf r Hq|i fp d r Hq];
    cbn [app settled]; auto.
  - destruct fs; auto.
  - destruct r as [|[] [data|]]; auto.
  - destruct r as [|[] [data|]]; auto.
Qed.

(** X11. The banner shows one of the two fixed messages or is absent; it is
    absent while the spinner is on. *)
Theorem error_banner_messages (w : World) :
  reachable w →
  (error_banner (app w) = None
   ∨ error_banner (app w) = Some upload_error
   ∨ error_banner (app w) = Some generate_error)
  ∧ (error_banner (app w) = None ↔ error (app w) = "")
  ∧ (isLoading (app w) = true → error_banner (app w) = None).
Proof.
  intros Hw.
  assert (Herr : error (app w) = "" ∨ error (app w) = upload_error
                 ∨ error (app w) = generate_error).
  { induction Hw as [|w e w' _ IH He]; [by left|].
    apply handle_step_1, step_error in He.
    destruct He as [-> | [-> | [-> | ->]]]; auto. }
  assert (Hnone : error_banner (app w) = None ↔ error (app w) = "").
  { unfold error_banner. rewrite <- truthy_false.
    by destruct (truthy (error (app w))). }
  split; [|split; [done|]].
  - unfold error_banner. destruct Herr as [-> | [-> | ->]]; auto.
  - intros Hbusy. apply Hnone.
    by apply (busy_no_error w (reachable_consistent w Hw)).
Qed.

Lemma error_banner_messages_witness :
  (∃ w, run upload_refused start = Some w
        ∧ reachable w ∧ error_banner (app w) = Some upload_error).
Proof.
  eexists. split; [vm_compute; reflexivity|].
  match goal with |- reachable ?w0 ∧ _ =>
    assert (Hw : reachable w0);
    [ apply (run_reachable upload_refused start);
      [constructor | vm_compute; reflexivity] |] end.
  split; [exact Hw|].
  destruct (error_banner_messages _ Hw) as ([Hn|[Hu|Hg]] & _).
  - discriminate Hn.
  - exact Hu.
  - discriminate Hg.
Defined.

(** ** Inputs and edits *)

(** X12. What an input shows right after its own [onChange] is the value typed,
    and the other inputs show what they showed. *)
Theorem input_shows_last_edit (s : State) (key value other : string) :
  other ≠ key →
  input_value key (onChange key value s) = Text value
  ∧ input_value other (onChange key value s) = input_value other s
  ∧ fields (onChange key value s) !! key = Some value.
Proof.
  intros Hne. unfold input_value, onChange. cbn [fields setFields].
  rewrite lookup_insert_eq, lookup_insert_ne by done.
  split; [|done]. destruct (truthy value) eqn:Hv; [done|].
  f_equal. symmetry. by apply truthy_false.
Qed.

Lemma input_shows_last_edit_witness :
  "amount" ≠ "name"
  ∧ input_value "name" (onChange "name" "" document_ready) = Text ""
  ∧ input_value "amount" (onChange "name" "" document_ready) = Text "100".
Proof.
  assert (Hne : "amount" ≠ "name") by discriminate.
  split; [exact Hne|].
  destruct (input_shows_last_edit document_ready "name" "" "amount" Hne)
    as (Hk & Ho & _).
  split; [exact Hk|]. rewrite Ho. vm_compute. reflexivity.
Defined.

(** X13. In a reachable state a rendered input either has an entry in
    [fields] and is given exactly that entry, or it is the input of
    [__proto__], has no entry, and is given what the object inherits under
    that name instead of a string. *)
Theorem input_value_stored (w : World) (key : string) :
  reachable w → key ∈ placeholders (app w) →
  (∃ v, fields (app w) !! key = Some v ∧ input_value key (app w) = Text v)
  ∨ (key = proto ∧ fields (app w) !! key = None
     ∧ input_value key (app w) = Inherited proto).
Proof.
  intros Hw Hk. destruct (reachable_consistent w Hw) as [_ _ _ Hnames].
  unfold input_value. destruct (fields (app w) !! key) as [v|] eqn:Hv.
  - left. exists v. split; [done|]. f_equal.
    destruct (truthy v) eqn:Ht; [done|]. apply truthy_false in Ht. by subst v.
  - right. destruct (decide (key = proto)) as [->|Hne]; [by split|].
    exfalso. apply not_elem_of_dom in Hv. apply Hv, Hnames, elem_of_difference.
    split; [by apply elem_of_list_to_set | by rewrite elem_of_singleton].
Qed.

Lemma input_value_stored_witness :
  reachable generating ∧ "amount" ∈ placeholders (app generating)
  ∧ input_value "amount" (app generating) = Text "100"
  ∧ reachable proto_ready ∧ "__proto__" ∈ placeholders (app proto_ready)
  ∧ input_value "__proto__" (app proto_ready) = Inherited "__proto__".
Proof.
  assert (Hw : reachable generating).
  { apply (run_reachable (take 6 scenario) start);
      [constructor | vm_compute; reflexivity]. }
  assert (Hk : "amount" ∈ placeholders (app generating)).
  { cbn. apply elem_of_cons. right. apply elem_of_cons. by left. }
  assert (Hw' : reachable proto_ready).
  { apply (run_reachable proto_uploaded start);
      [constructor | vm_compute; reflexivity]. }
  assert (Hk' : "__proto__" ∈ placeholders (app proto_ready)).
  { cbn. apply elem_of_cons. by left. }
  split; [exact Hw|]. split; [exact Hk|]. split.
  { destruct (input_value_stored generating "amount" Hw Hk)
      as [(v & Hv & Hshown)|(Hp & _)]; [|discriminate Hp].
    rewrite Hshown. f_equal. cbn in Hv. vm_compute in Hv. congruence. }
  split; [exact Hw'|]. split; [exact Hk'|].
  destruct (input_value_stored proto_ready "__proto__" Hw' Hk')
    as [(v & Hv & _)|(_ & _ & Hshown)]; [discriminate Hv | exact Hshown].
Defined.

Lemma edit_all_app (a b : list (string * string)) (s : State) :
  edit_all (a ++ b) s = edit_all b (edit_all a s).
Proof. unfold edit_all. apply foldl_app. Qed.

Lemma edit_all_untouched (edits : list (string * string)) (s : State) (k : string) :
  k ∉ edits.*1 → fields (edit_all edits s) !! k = fields s !! k.
Proof.
  revert s. induction edits as [|[k' v'] edits IH]; intros s Hk; [done|].
  cbn in Hk. apply not_elem_of_cons in Hk as [Hne Hk].
  change (edit_all ((k', v') :: edits) s) with (edit_all edits (onChange k' v' s)).
  rewrite (IH _ Hk). cbn. by rewrite lookup_insert_ne.
Qed.

(** X14. In a sequence of edits the last one to a name decides its value, and
    a name no edit mentions keeps the value it had. *)
Theorem edit_all_last_wins
    (before after : list (string * string)) (k v : string) (s : State) :
  k ∉ after.*1 →
  fields (edit_all (before ++ (k, v) :: after) s) !! k = Some v
  ∧ fields (edit_all after s) !! k = fields s !! k.
Proof.
  intros Hk. split; [|by apply edit_all_untouched].
  rewrite edit_all_app.
  change (edit_all ((k, v) :: after) (edit_all before s))
    with (edit_all after (onChange k v (edit_all before s))).
  rewrite edit_all_untouched by done. cbn. apply lookup_insert_eq.
Qed.

Lemma edit_all_last_wins_witness :
  ("name" ∉ ([("amount", "100")].*1))
  ∧ fields (edit_all [("name", "Al"); ("name", "Alice"); ("amount", "100")] initial)
      !! "name" = Some "Alice".
Proof.
  assert (Hk : "name" ∉ ([("amount", "100")].*1)).
  { cbn. intros Hin. apply elem_of_cons in Hin as [Hin|Hin]; [discriminate Hin|].
    by apply elem_of_nil in Hin. }
  split; [exact Hk|].
  apply (edit_all_last_wins [("name", "Al")] [("amount", "100")] "name" "Alice"
           initial Hk).
Defined.

(** ** Requests and the state they return to *)

Lemma inflight_fits (w : World) :
  reachable w →
  Forall (λ q, match q with
               | UploadRequest _ => is_Some (file (app w))
               | GenerateRequest filePath _ =>
                   filePath = fileLocation (app w) ∧ filePath ≠ ""
                   ∧ placeholders (app w) ≠ []
               end) (inflight w).
Proof.
  intros Hw. apply Forall_forall.
  induction Hw as [|w e w' Hw IH He]; intros q Hq.
  { by apply elem_of_nil in Hq. }
  pose proof (reachable_idle_inflight w Hw) as Hidle.
  pose proof (reachable_busy_inflight w Hw) as Hone.
  apply handle_step_1 in He.
  destruct He as [fs|f Hf Hfree|Hc|k v Hk|Hd|i pdf r Hi|i fp d r Hi];
    cbn [app inflight settled] in *.
  - specialize (IH q Hq). destruct q; [|by destruct fs].
    destruct fs; [done|]. cbn. eauto.
  - rewrite (Hidle Hfree) in Hq. apply list_elem_of_singleton in Hq as ->.
    cbn. rewrite Hf. eauto.
  - apply generate_callable_spec in Hc as (Hlen & Hloc & Hfree & _).
    rewrite (Hidle Hfree) in Hq. apply list_elem_of_singleton in Hq as ->.
    split; [done|]. split; [done|]. intros Hnil.
    change (placeholders (app w) = []) in Hnil. rewrite Hnil in Hlen.
    cbn in Hlen. lia.
  - by specialize (IH q Hq).
  - by specialize (IH q Hq).
  - destruct (isLoading (app w)) eqn:Hb.
    + destruct (Hone eq_refl) as [q0 Hq0]. rewrite Hq0 in Hq, Hi.
      destruct i; [by apply elem_of_nil in Hq | done].
    + by rewrite (Hidle eq_refl) in Hi.
  - destruct (isLoading (app w)) eqn:Hb.
    + destruct (Hone eq_refl) as [q0 Hq0]. rewrite Hq0 in Hq, Hi.
      destruct i; [by apply elem_of_nil in Hq | done].
    + by rewrite (Hidle eq_refl) in Hi.
Qed.


(** X15. An outstanding request still fits the state its reply will find: an
    upload is only outstanding with a file selected, and a generation only
    with the server reference it was sent for, which is not empty, and with
    a placeholder list that is not empty.  (The selected file and the values
    of [fields] may have changed since the request was sent.) *)
Theorem request_matches_state (w : World) (q : Request) :
  reachable w → q ∈ inflight w →
  match q with
  | UploadRequest _ => is_Some (file (app w))
  | GenerateRequest filePath _ =>
      filePath = fileLocation (app w) ∧ filePath ≠ ""
      ∧ placeholders (app w) ≠ []
  end.
Proof.
  intros Hw Hq. by apply (proj1 (Forall_forall _ _) (inflight_fits w Hw)).
Qed.

Lemma request_matches_state_witness :
  reachable generating
  ∧ GenerateRequest "/tmp/t1" (fields (app generating)) ∈ inflight generating
  ∧ "/tmp/t1" = fileLocation (app generating).
Proof.
  assert (Hw : reachable generating).
  { apply (run_reachable (take 6 scenario) start);
      [constructor | vm_compute; reflexivity]. }
  assert (Hq : GenerateRequest "/tmp/t1" (fields (app generating))
               ∈ inflight generating).
  { apply list_elem_of_singleton. reflexivity. }
  split; [exact Hw|]. split; [exact Hq|].
  destruct (request_matches_state generating _ Hw Hq) as (Hloc & _). exact Hloc.
Defined.

(** X16. Once a request has settled, whatever the reply, the same action is
    available again without anything else being done: after an upload the
    upload button can be pressed; after a generation the generate button can
    be pressed exactly when [fields] is complete. *)
Theorem retry_after_settle (w w' : World) (i : nat) (reply : Reply) :
  reachable w → handle (Settle i reply) w = Some w' →
  match reply with
  | UploadReply _ => is_Some (handle ClickUpload w')
  | GenerateReply _ =>
      generate_callable (app w') = isComplete (fields (app w'))
      ∧ (isComplete (fields (app w')) = true →
           is_Some (handle ClickGenerate w'))
  end.
Proof.
  intros Hw He. pose proof (handle_step_1 _ _ _ He) as Hs.
  inversion Hs as [| | | | |i' pdf r Hi|i' fp d r Hi]; subst.
  - assert (Hq : UploadRequest pdf ∈ inflight w) by by eapply list_elem_of_lookup_2.
    pose proof (proj1 (Forall_forall _ _) (inflight_fits w Hw) _ Hq) as Hf.
    cbn in Hf. apply upload_offered; cbn [app settled];
      by destruct r as [|[] [data|]].
  - assert (Hq : GenerateRequest fp d ∈ inflight w) by by eapply list_elem_of_lookup_2.
    destruct (proj1 (Forall_forall _ _) (inflight_fits w Hw) _ Hq)
      as (Hloc & Hne & Hpl).
    cbn [app settled]. destruct (generatePDF_resume_session r (app w)) as (Hf & Hp & Hl).
    assert (Hcall : generate_callable (generatePDF_resume r (app w))
                    = isComplete (fields (generatePDF_resume r (app w)))).
    { unfold generate_callable, generate_disabled, sections_rendered, isComplete.
      rewrite Hp, Hl, generatePDF_resume_isLoading.
      subst fp. apply truthy_true in Hne. rewrite Hne.
      rewrite bool_decide_eq_true_2; [done|].
      destruct (placeholders (app w)); [done | cbn; lia]. }
    split; [done|]. intros Hc. rewrite <- Hcall in Hc.
    cbn [handle]. cbn [app settled]. rewrite Hc.
    unfold generatePDF_begin. rewrite Hl. subst fp.
    apply truthy_true in Hne. rewrite Hne. cbn. eauto.
Qed.

Lemma retry_after_settle_witness :
  reachable retrying
  ∧ handle (Settle 0 (UploadReply Rejected)) retrying
    = Some {| app := uploadTemplate_resume Rejected (app retrying); inflight := [] |}
  ∧ is_Some (handle ClickUpload
       {| app := uploadTemplate_resume Rejected (app retrying); inflight := [] |}).
Proof.
  assert (Hw : reachable retrying).
  { apply (run_reachable (upload_refused ++ [ClickUpload]) start);
      [constructor | vm_compute; reflexivity]. }
  assert (He : handle (Settle 0 (UploadReply Rejected)) retrying
    = Some {| app := uploadTemplate_resume Rejected (app retrying); inflight := [] |})
    by reflexivity.
  split; [exact Hw|]. split; [exact He|].
  exact (retry_after_settle retrying _ 0 (UploadReply Rejected) Hw He).
Defined.

(** ** A freshly uploaded template *)

(** X17. Right after a successful upload the input of every name other
    than [__proto__] is empty, and with such a name in the list the generate
    button cannot be pressed.  It can be pressed at once only in the
    degenerate case: the list is not empty, every name in it is [__proto__],
    and the reference is not empty. *)
Theorem fresh_upload_not_callable (s : State) (f : File) (data : UploadData) :
  file s = Some f →
  let s' := uploadTemplate (Response true (Some data)) s in
  (generate_callable s' = true ↔
     placeholders s' ≠ [] ∧ (∀ p, p ∈ placeholders s' → p = proto)
     ∧ data_filePath data ≠ "")
  ∧ (isComplete (fields s') = true ↔ ∀ p, p ∈ placeholders s' → p = proto)
  ∧ (∀ p, p ∈ placeholders s' → p ≠ proto →
       input_value p s' = Text "" ∧ generate_callable s' = false).
Proof.
  intros Hf s'. subst s'. rewrite (uploadTemplate_selected s f _ Hf).
  destruct (uploadTemplate_resume_ok data (setError "" (setIsLoading true s)))
    as (Hloc & _ & Hfl & _ & _ & _ & Hb).
  set (s' := uploadTemplate_resume _ _) in *.
  assert (Hlook : ∀ p, fields s' !! p
            = if decide (p ∈ placeholders s' ∧ p ≠ proto) then Some "" else None).
  { intros p. rewrite Hfl, lookup_gset_to_gmap.
    destruct (decide (p ∈ placeholders s' ∧ p ≠ proto)) as [[Hp Hne]|Hn].
    - rewrite option_guard_True; [done|]. apply elem_of_difference.
      split; [by apply elem_of_list_to_set | by rewrite elem_of_singleton].
    - rewrite option_guard_False; [done|].
      rewrite elem_of_difference, elem_of_list_to_set, elem_of_singleton.
      intros [? ?]. by apply Hn. }
  assert (Hc : isComplete (fields s') = true
               ↔ ∀ p, p ∈ placeholders s' → p = proto).
  { rewrite isComplete_spec. split.
    - intros Hall p Hp. destruct (decide (p = proto)) as [|Hne]; [done|].
      exfalso. apply (Hall p ""); [|done]. rewrite Hlook.
      by rewrite decide_True.
    - intros Hall k v. rewrite Hlook.
      destruct (decide (k ∈ placeholders s' ∧ k ≠ proto)) as [[Hk Hne]|_];
        [|done]. by destruct (Hne (Hall k Hk)). }
  assert (Hcall : generate_callable s' = true ↔
            placeholders s' ≠ [] ∧ (∀ p, p ∈ placeholders s' → p = proto)
            ∧ data_filePath data ≠ "").
  { rewrite generate_callable_spec, Hc, Hloc, Hb. split.
    - intros (Hlen & Hfp & _ & Hall). split; [|done].
      intros Hnil. rewrite Hnil in Hlen. cbn in Hlen. lia.
    - intros (Hne & Hall & Hfp). split; [|done].
      destruct (placeholders s'); [done | cbn; lia]. }
  split; [done|]. split; [done|].
  intros p Hp Hne. split.
  - unfold input_value. rewrite Hlook. by rewrite decide_True.
  - apply not_true_iff_false. intros (_ & Hall & _)%Hcall. by apply Hne, Hall.
Qed.

Lemma fresh_upload_not_callable_witness :
  file file_selected = Some invoice
  ∧ generate_callable
      (uploadTemplate (Response true (Some first_template)) file_selected) = false
  ∧ generate_callable
      (uploadTemplate (Response true (Some proto_template)) file_selected) = true.
Proof.
  split; [reflexivity|]. split.
  - destruct (fresh_upload_not_callable file_selected invoice first_template eq_refl)
      as (_ & _ & Hc).
    apply (Hc "name"); [|discriminate]. cbn. apply elem_of_cons. by left.
  - destruct (fresh_upload_not_callable file_selected invoice proto_template eq_refl)
      as (Hc & _).
    apply Hc. split; [discriminate|]. split; [|discriminate].
    intros p Hp. cbn in Hp. apply elem_of_cons in Hp as [Hp|Hp]; [done|].
    by apply elem_of_nil in Hp.
Defined.

Lemma size_list_to_set_le (l : list string) :
  (size (list_to_set (C := gset string) l) ≤ length l)%nat.
Proof.
  induction l as [|x l IH]; cbn [list_to_set length].
  - by rewrite size_empty.
  - rewrite size_union_alt, size_singleton.
    pose proof (subseteq_size (list_to_set l ∖ {[x]}) (list_to_set (C := gset string) l)) as Hle.
    assert (Hsub : list_to_set (C := gset string) l ∖ {[x]} ⊆ list_to_set l)
      by apply subseteq_difference_l, reflexivity.
    specialize (Hle Hsub). lia.
Qed.

(** X18. A name that the service lists twice gets one entry: after a successful
    upload [fields] has at most as many entries as the list has names, and
    exactly as many when no name repeats and none is [__proto__]. *)
Theorem upload_one_entry_per_name (s : State) (f : File) (data : UploadData) :
  file s = Some f →
  let s' := uploadTemplate (Response true (Some data)) s in
  (size (fields s') ≤ length (placeholders s'))%nat
  ∧ (NoDup (placeholders s') → proto ∉ placeholders s' →
       size (fields s') = length (placeholders s')).
Proof.
  intros Hf s'. subst s'. rewrite (uploadTemplate_selected s f _ Hf).
  destruct (uploadTemplate_resume_ok data (setError "" (setIsLoading true s)))
    as (_ & _ & Hfl & _).
  set (s' := uploadTemplate_resume _ _) in *.
  assert (Hsize : size (fields s')
            = size ((list_to_set (placeholders s') : gset string) ∖ {[proto]})).
  { rewrite Hfl at 1. by rewrite <- size_dom, dom_gset_to_gmap. }
  rewrite Hsize. split.
  - etrans; [|apply size_list_to_set_le].
    apply subseteq_size, subseteq_difference_l. reflexivity.
  - intros Hnd Hno. rewrite difference_disjoint_L.
    + by apply size_list_to_set.
    + apply disjoint_singleton_r. by rewrite elem_of_list_to_set.
Qed.

Lemma upload_one_entry_per_name_witness :
  file file_selected = Some invoice
  ∧ NoDup (placeholders
             (uploadTemplate (Response true (Some first_template)) file_selected))
  ∧ (proto ∉ placeholders
               (uploadTemplate (Response true (Some first_template)) file_selected))
  ∧ size (fields
            (uploadTemplate (Response true (Some first_template)) file_selected))
    = 2.
Proof.
  split; [reflexivity|].
  assert (Hnd : NoDup (placeholders
             (uploadTemplate (Response true (Some first_template)) file_selected))).
  { apply (bool_decide_unpack _). vm_compute. exact I. }
  assert (Hno : proto ∉ placeholders
             (uploadTemplate (Response true (Some first_template)) file_selected)).
  { apply (bool_decide_unpack _). vm_compute. exact I. }
  split; [exact Hnd|]. split; [exact Hno|].
  destruct (upload_one_entry_per_name file_selected invoice first_template eq_refl)
    as (_ & Heq).
  exact (Heq Hnd Hno).
Defined.

(** ** The whole workflow *)

Lemma run_app (a b : list Event) (w : World) :
  run (a ++ b) w = run a w ≫= run b.
Proof.
  revert w. induction a as [|e a IH]; intros w; [done|]. cbn.
  destruct (handle e w); [apply IH | done].
Qed.

Lemma run_step (e : Event) (es : list Event) (w w' : World) :
  step w e w' → run (e :: es) w = run es w'.
Proof. intros Hs. cbn. by rewrite (handle_step_2 _ _ _ Hs). Qed.

Lemma run_changes (value : string → string) (names : list string) (w : World) :
  (∀ p, p ∈ names → p ∈ placeholders (app w)) →
  run ((λ p, Change p (value p)) <$> names) w
  = Some {| app := edit_all ((λ p, (p, value p)) <$> names) (app w);
            inflight := inflight w |}.
Proof.
  revert w. induction names as [|p names IH]; intros w Hin.
  - by destruct w.
  - rewrite fmap_cons.
    rewrite (run_step _ _ w {| app := onChange p (value p) (app w);
                               inflight := inflight w |}).
    + rewrite IH; [done|]. intros q Hq. cbn. apply Hin, elem_of_cons. by right.
    + apply step_change, Hin, elem_of_cons. by left.
Qed.

Lemma edit_all_values (value : string → string) (names : list string)
    (s : State) (k : string) :
  fields (edit_all ((λ p, (p, value p)) <$> names) s) !! k
  = if decide (k ∈ names) then Some (value k) else fields s !! k.
Proof.
  induction names as [|p names IH] using rev_ind.
  - cbn. rewrite decide_False; [done|]. apply not_elem_of_nil.
  - rewrite fmap_app, edit_all_app. cbn.
    destruct (decide (k = p)) as [->|Hne].
    + rewrite lookup_insert_eq, decide_True; [done|].
      apply elem_of_app. right. apply elem_of_cons. by left.
    + rewrite lookup_insert_ne, IH by done.
      destruct (decide (k ∈ names)) as [Hk|Hk].
      * rewrite decide_True; [done|]. apply elem_of_app. by left.
      * rewrite decide_False; [done|]. intros [?|Hp]%elem_of_app; [done|].
        apply list_elem_of_singleton in Hp. done.
Qed.

(** X19. The workflow can always be carried through.  From any state with no
    request outstanding: pick a file, upload it, let the service answer with
    a non-empty reference and a non-empty list of names, type a non-empty
    value into every input, press generate, let the service answer with a
    document.  Every one of these events is offered in its turn, and at the
    end the link is the document's [downloadPath], [fields] holds the typed
    values, nothing is loading and no error is shown. *)
Theorem workflow_completes (w0 : World) (f : File) (data : UploadData)
    (l : list string) (value : string → string) (doc : GenerateData) :
  inflight w0 = [] → isLoading (app w0) = false →
  data_placeholders data = JArray l → l ≠ [] → data_filePath data ≠ "" →
  (∀ p, p ∈ l → value p ≠ "") →
  ∃ w, run ([Drop [f]; ClickUpload;
             Settle 0 (UploadReply (Response true (Some data)))]
            ++ ((λ p, Change p (value p)) <$> l)
            ++ [ClickGenerate;
                Settle 0 (GenerateReply (Response true (Some doc)))]) w0
       = Some w
     ∧ downloadLink (app w) = data_downloadPath doc
     ∧ fileLocation (app w) = data_filePath data
     ∧ placeholders (app w) = l
     ∧ (∀ p, p ∈ l → fields (app w) !! p = Some (value p))
     ∧ file (app w) = Some f
     ∧ isLoading (app w) = false ∧ error (app w) = "" ∧ inflight w = [].
Proof.
  intros Hq0 Hidle Hdata Hl Hfp Hval.
  set (s1 := onDrop [f] (app w0)).
  set (s2 := setError "" (setIsLoading true s1)).
  set (s3 := uploadTemplate_resume (Response true (Some data)) s2).
  set (s4 := edit_all ((λ p, (p, value p)) <$> l) s3).
  set (s5 := setError "" (setIsLoading true s4)).
  set (s6 := generatePDF_resume (Response true (Some doc)) s5).
  exists {| app := s6; inflight := [] |}.
  destruct (uploadTemplate_resume_ok data s2) as (Hloc3 & Hpl3 & Hfl3 & Hf3 & _ & He3 & Hb3).
  fold s3 in Hloc3, Hpl3, Hfl3, Hf3, He3, Hb3.
  rewrite Hdata in Hpl3. cbn [Array_isArray elements_of] in Hpl3.
  destruct (edit_all_frame ((λ p, (p, value p)) <$> l) s3) as (Hloc4 & Hb4 & Hpl4).
  fold s4 in Hloc4, Hb4, Hpl4.
  assert (Hfl4 : ∀ k, fields s4 !! k
                      = if decide (k ∈ l) then Some (value k) else None).
  { intros k. unfold s4. rewrite edit_all_values, Hfl3, Hpl3, lookup_gset_to_gmap.
    destruct (decide (k ∈ l)) as [Hk|Hk]; [done|].
    rewrite option_guard_False; [done|].
    rewrite elem_of_difference, elem_of_list_to_set. by intros [? _]. }
  assert (Hc : generate_callable s4 = true).
  { apply generate_callable_spec. rewrite Hpl4, Hpl3, Hloc4, Hloc3, Hb4, Hb3.
    split; [destruct l; [done | cbn; lia]|]. split; [done|]. split; [done|].
    apply isComplete_spec. intros k v. rewrite Hfl4.
    destruct (decide (k ∈ l)) as [Hk|Hk]; [|done].
    intros [= <-]. by apply Hval. }
  split.
  - rewrite run_app.
    rewrite (run_step _ _ w0 {| app := s1; inflight := inflight w0 |})
      by apply step_drop.
    rewrite (run_step _ _ _ {| app := s2; inflight := inflight w0 ++ [UploadRequest f] |})
      by (by apply (step_upload {| app := s1; inflight := inflight w0 |} f)).
    rewrite Hq0.
    rewrite (run_step _ _ _ {| app := s3; inflight := [] |})
      by (by apply (step_upload_settled
                      {| app := s2; inflight := [UploadRequest f] |} 0 f)).
    cbn [run mbind option_bind]. rewrite run_app.
    rewrite run_changes by (intros p Hp; cbn [app]; by rewrite Hpl3).
    cbn [mbind option_bind app inflight]. fold s4.
    rewrite (run_step _ _ _ {| app := s5;
               inflight := [GenerateRequest (fileLocation s4) (fields s4)] |})
      by (by apply (step_generate {| app := s4; inflight := [] |})).
    rewrite (run_step _ _ _ {| app := s6; inflight := [] |}); [done|].
    by apply (step_generate_settled
                {| app := s5;
                   inflight := [GenerateRequest (fileLocation s4) (fields s4)] |}
                0 (fileLocation s4) (fields s4)).
  - cbn [app inflight]. split; [done|]. split; [by rewrite <- Hloc3, <- Hloc4|].
    split; [by rewrite <- Hpl3, <- Hpl4|]. split.
    { intros p Hp. change (fields s6) with (fields s4).
      rewrite Hfl4. by rewrite decide_True. }
    split; [|done].
    change (file s6) with (file s4). unfold s4.
    assert (Hfile : ∀ edits s, file (edit_all edits s) = file s).
    { intros edits. unfold edit_all.
      induction edits as [|e edits IH] using rev_ind; intros s; [done|].
      by rewrite foldl_app; cbn; rewrite IH. }
    rewrite Hfile, Hf3. done.
Qed.

Lemma workflow_completes_witness :
  (∃ w, run scenario start = Some w
        ∧ downloadLink (app w) = "/out/d1.pdf"
        ∧ fields (app w) !! "amount" = Some "100").
Proof.
  destruct (workflow_completes start invoice first_template ["name"; "amount"]
              (λ p, if String.eqb p "name" then "Alice" else "100") first_document)
    as (w & Hrun & Hlink & _ & _ & Hfields & _).
  - reflexivity.
  - reflexivity.
  - reflexivity.
  - discriminate.
  - discriminate.
  - intros p Hp. destruct (String.eqb p "name"); discriminate.
  - exists w. split; [exact Hrun|]. split; [exact Hlink|].
    apply (Hfields "amount"). apply elem_of_cons. right. apply elem_of_cons. by left.
Defined.

(** X20. What the settling of a request does, whenever it happens.  It is the
    one outstanding request; afterwards none is left and the spinner is off.
    A decoded ok upload response installs a fresh session (the reference,
    the list of names, and one empty entry for every name other than
    [__proto__]) and leaves the error empty and the link as it was; a
    decoded ok generation response stores the link and leaves
    the error empty; any other reply writes the handler's message and
    nothing else.  Edits, drops and anchor clicks made during the wait do
    not change this. *)
Theorem settle_outcome (w w' : World) (i : nat) (reply : Reply) :
  reachable w → handle (Settle i reply) w = Some w' →
  i = 0 ∧ inflight w' = [] ∧ isLoading (app w') = false
  ∧ match reply with
    | UploadReply (Response true (Some data)) =>
        fileLocation (app w') = data_filePath data
        ∧ placeholders (app w')
          = (if Array_isArray (data_placeholders data)
             then elements_of (data_placeholders data) else [])
        ∧ fields (app w')
          = gset_to_gmap "" (list_to_set (placeholders (app w')) ∖ {[proto]})
        ∧ downloadLink (app w') = downloadLink (app w)
        ∧ error (app w') = ""
    | UploadReply _ =>
        app w' = setIsLoading false (setError upload_error (app w))
    | GenerateReply (Response true (Some data)) =>
        app w' = setIsLoading false
                   (setDownloadLink (data_downloadPath data) (app w))
        ∧ error (app w') = ""
    | GenerateReply _ =>
        app w' = setIsLoading false (setError generate_error (app w))
    end.
Proof.
  intros Hw He.
  assert (Hi : i = 0).
  { destruct i; [done|]. rewrite settle_beyond_first in He by (done || lia). done. }
  subst i.
  assert (Hb : isLoading (app w) = true).
  { destruct (isLoading (app w)) eqn:Hb; [done|]. cbn [handle] in He.
    by rewrite (reachable_idle_inflight w Hw Hb) in He. }
  destruct (reachable_busy_inflight w Hw Hb) as [q Hq].
  pose proof (busy_no_error w (reachable_consistent w Hw) Hb) as Herr.
  apply handle_step_1 in He.
  inversion He as [| | | | |i' pdf r Hi|i' fp d r Hi]; subst;
    unfold settled; cbn [app inflight]; rewrite Hq;
    (split; [done|]); (split; [done|]);
    (split; [by destruct r as [|[] [?|]]|]).
  - destruct r as [|[] [data|]]; try done.
    destruct (uploadTemplate_resume_ok data (app w)) as (? & ? & ? & _ & ? & He' & _).
    rewrite He'. done.
  - by destruct r as [|[] [data|]].
Qed.

Lemma settle_outcome_witness :
  reachable {| app := onChange "name" "Bob" (app generating);
               inflight := inflight generating |}
  ∧ (∃ w', handle (Settle 0 (GenerateReply (Response false None)))
             {| app := onChange "name" "Bob" (app generating);
                inflight := inflight generating |} = Some w'
           ∧ app w' = setIsLoading false
                        (setError generate_error
                           (onChange "name" "Bob" (app generating)))).
Proof.
  assert (Hw : reachable generating).
  { apply (run_reachable (take 6 scenario) start);
      [constructor | vm_compute; reflexivity]. }
  assert (Hw1 : reachable {| app := onChange "name" "Bob" (app generating);
                             inflight := inflight generating |}).
  { apply (reachable_step generating (Change "name" "Bob")); [exact Hw|].
    vm_compute. reflexivity. }
  split; [exact Hw1|]. eexists. split; [reflexivity|].
  destruct (settle_outcome _ _ 0 (GenerateReply (Response false None)) Hw1 eq_refl)
    as (_ & _ & _ & Happ).
  exact Happ.
Defined.
